(** * uaclient.config: layered configuration and the on-disk cache

    A shallow embedding of [uaclient/config.py]: the configuration resolver
    [parse_config] and the cache accessors of [UAConfig], over an explicit
    model of the Python values they handle, of the process environment and
    of the file store.  Definitions keep the names of the source. *)

From Stdlib Require Import ZArith NArith Ascii String List Bool Lia.
From Stdlib Require Import DecimalString DecimalN DecimalFacts.
From stdpp Require Import base option list strings gmap.

Local Open Scope string_scope.
Set Warnings "-register-all".

(** ** Python values *)

(** The values that flow through the module: what [json.loads] returns and
    what [yaml.load] returns for documents made of null, booleans,
    integers, strings, sequences and string-keyed mappings.  A string is a
    sequence of code points below 256.  A mapping is kept as an association
    list in insertion order, as [json.dumps] walks it.  Floats and mappings
    with other keys are outside the embedding; a run that would need them
    ends in [Beyond] (see [outcome]). *)
Inductive pyval : Type :=
| PNone
| PBool (b : bool)
| PInt (z : Z)
| PStr (s : string)
| PList (l : list pyval)
| PDict (kvs : list (string * pyval)).

(** Truth value of a Python object, as [bool(v)], [if v] and [not v] see it. *)
Definition truthy (v : pyval) : bool :=
  match v with
  | PNone => false
  | PBool b => b
  | PInt z => negb (z =? 0)%Z
  | PStr s => negb (String.eqb s "")
  | PList l => match l with [] => false | _ => true end
  | PDict kvs => match kvs with [] => false | _ => true end
  end.

(** [isinstance(v, six.string_types)] *)
Definition is_string (v : pyval) : bool :=
  match v with PStr _ => true | _ => false end.

(** ** Exceptions and outcomes *)

Inductive exn : Type :=
| KeyError
| TypeError
| ValueError
| AttributeError
| YAMLError
| FileNotFoundError
| FileExistsError
| IsADirectoryError
| NotADirectoryError
| ConfigAbsentError.   (* class ConfigAbsentError(RuntimeError) *)

(** A call returns, raises, or leaves the fragment of Python that the
    embedding covers ([Beyond]): nothing is claimed about such a run. *)
Inductive outcome (A : Type) : Type :=
| Ok (a : A)
| Raise (e : exn)
| Beyond.
Arguments Ok {A} a.
Arguments Raise {A} e.
Arguments Beyond {A}.

#[global] Instance exn_eq_dec : EqDecision exn.
Proof. solve_decision. Defined.

Definition is_ok {A} (o : outcome A) : bool :=
  match o with Ok _ => true | _ => false end.

Definition obind {A B} (o : outcome A) (k : A -> outcome B) : outcome B :=
  match o with
  | Ok a => k a
  | Raise e => Raise e
  | Beyond => Beyond
  end.

Notation "x <-? o ;; k" := (obind o (fun x => k))
  (at level 100, o at next level, right associativity).

(** ** Strings *)

Definition is_ascii (c : ascii) : bool := (N_of_ascii c <? 128)%N.

Definition upper_char (c : ascii) : ascii :=
  let n := N_of_ascii c in
  if ((97 <=? n) && (n <=? 122))%N then ascii_of_N (n - 32) else c.

Definition lower_char (c : ascii) : ascii :=
  let n := N_of_ascii c in
  if ((65 <=? n) && (n <=? 90))%N then ascii_of_N (n + 32) else c.

Fixpoint str_map (f : ascii -> ascii) (s : string) : string :=
  match s with
  | EmptyString => EmptyString
  | String c r => String (f c) (str_map f r)
  end.

Fixpoint str_forall (p : ascii -> bool) (s : string) : bool :=
  match s with
  | EmptyString => true
  | String c r => p c && str_forall p r
  end.

(** [s.upper()] and [s.lower()] on ASCII text.  The case mappings of the
    other code points (some change the length of the string) are not
    modelled: the result is [None] there, and callers turn it into
    [Beyond]. *)
Definition str_upper (s : string) : option string :=
  if str_forall is_ascii s then Some (str_map upper_char s) else None.

Definition str_lower (s : string) : option string :=
  if str_forall is_ascii s then Some (str_map lower_char s) else None.

(** [s.startswith(p)] *)
Definition startswith (s p : string) : bool := String.prefix p s.

(** [s[n:]] *)
Fixpoint str_drop (n : nat) (s : string) : string :=
  match n, s with
  | O, _ => s
  | S n', EmptyString => EmptyString
  | S n', String _ r => str_drop n' r
  end.

(** [s.rstrip(c)] for a one-character [c] *)
Fixpoint rstrip (c : ascii) (s : string) : string :=
  match s with
  | EmptyString => EmptyString
  | String a r =>
      let r' := rstrip c r in
      if String.eqb r' "" && Ascii.eqb a c then "" else String a r'
  end.

(** [s.split(c)]: the pieces between the occurrences of [c] *)
Fixpoint split_on (c : ascii) (s : string) : list string :=
  match s with
  | EmptyString => [""]
  | String a r =>
      if Ascii.eqb a c then "" :: split_on c r
      else match split_on c r with
           | [] => [String a ""]
           | p :: ps => String a p :: ps
           end
  end.

(** ** os.path (posixpath) *)

Definition sep : ascii := "/"%char.

(** Whether [s] ends with the character [c]: [s.endswith(c)] *)
Fixpoint endswith_char (s : string) (c : ascii) : bool :=
  match s with
  | EmptyString => false
  | String a EmptyString => Ascii.eqb a c
  | String _ r => endswith_char r c
  end.

(** [os.path.join(a, b)] *)
Definition os_path_join (a b : string) : string :=
  if startswith b "/" then b
  else if String.eqb a "" || endswith_char a sep then a ++ b
  else a ++ "/" ++ b.

(** The two pieces [(p[:i], p[i:])] with [i = p.rfind('/') + 1], from which
    posixpath builds [split], [basename] and [dirname]. *)
Fixpoint split_last (p : string) : string * string :=
  match p with
  | EmptyString => ("", "")
  | String c r =>
      let '(h, t) := split_last r in
      if negb (String.eqb h "") then (String c h, t)
      else if Ascii.eqb c sep then ("/", r)
      else ("", String c r)
  end.

(** [os.path.basename(p)] *)
Definition os_path_basename (p : string) : string := snd (split_last p).

(** [os.path.dirname(p)] *)
Definition os_path_dirname (p : string) : string :=
  let head := fst (split_last p) in
  if negb (String.eqb head "") && negb (str_forall (Ascii.eqb sep) head)
  then rstrip sep head else head.

(** The limits of the system on a file name and on a path, in bytes
    ([PATH_MAX] counts the terminating NUL). *)
Definition NAME_MAX : N := 255.
Definition PATH_MAX : N := 4096.

(** A string without the NUL character, which no path can hold. *)
Definition no_nul (s : string) : bool :=
  str_forall (fun a => negb (Ascii.eqb a "000"%char)) s.

(** The store is keyed by path strings, so it only tells apart locations
    that are spelled canonically: absolute, no empty component (no doubled
    or trailing slash) and no [.] or [..] component.  A path with a NUL
    character, with a component longer than [NAME_MAX] or as long as
    [PATH_MAX] is turned down by the system calls before they look at the
    store, with [ValueError] or [OSError] according to the call and the
    interpreter.  File operations on all of these are [Beyond]. *)
Definition plain_component (c : string) : bool :=
  negb (String.eqb c "") && negb (String.eqb c ".") && negb (String.eqb c "..")
  && no_nul c && (N.of_nat (String.length c) <=? NAME_MAX)%N.

Definition canonical (p : string) : bool :=
  String.eqb p "/" ||
  ((N.of_nat (String.length p) <? PATH_MAX)%N &&
   match split_on sep p with
   | first :: c :: cs => String.eqb first "" && forallb plain_component (c :: cs)
   | _ => false
   end).


(** ** The world: file store, log, process environment *)

Inductive node : Type :=
| Dir
| File (content : string).

(** One call of the [logging] module: logger name, numeric level, message. *)
Record log_record : Type := LogRecord {
  lr_logger : string;
  lr_level : Z;
  lr_message : string
}.

Definition logging_DEBUG : Z := 10.
Definition logging_INFO : Z := 20.

Record world : Type := World {
  w_fs : gmap string node;             (* canonical path -> what is there *)
  w_log : list log_record;             (* logging calls, oldest first *)
  w_environ : list (string * string);  (* os.environ, in iteration order *)
  w_cwd : string;                      (* os.getcwd() *)
  w_pw_self : option string;           (* pwd.getpwuid(os.getuid()).pw_dir *)
  w_pw : list (string * string)        (* pwd.getpwnam(name).pw_dir *)
}.

Definition set_fs (w : world) (fs : gmap string node) : world :=
  World fs (w_log w) (w_environ w) (w_cwd w) (w_pw_self w) (w_pw w).

Definition add_log (w : world) (r : log_record) : world :=
  World (w_fs w) (w_log w ++ [r]) (w_environ w) (w_cwd w) (w_pw_self w) (w_pw w).

(** Computations that read and change the world and may raise. *)
Definition M (A : Type) : Type := world -> outcome A * world.

Definition ret {A} (a : A) : M A := fun w => (Ok a, w).
Definition raise {A} (e : exn) : M A := fun w => (Raise e, w).
Definition beyond {A} : M A := fun w => (Beyond, w).
Definition lift {A} (o : outcome A) : M A := fun w => (o, w).

Definition bind {A B} (m : M A) (k : A -> M B) : M B :=
  fun w =>
    match m w with
    | (Ok a, w') => k a w'
    | (Raise e, w') => (Raise e, w')
    | (Beyond, w') => (Beyond, w')
    end.

Notation "x <- m ;; k" := (bind m (fun x => k))
  (at level 100, m at next level, right associativity).
Notation "m ;;; k" := (bind m (fun _ => k))
  (at level 100, right associativity).

(** [try: m except e: pass] *)
Definition except_pass (m : M unit) (e : exn) : M unit :=
  fun w =>
    match m w with
    | (Raise e', w') =>
        if decide (e' = e) then (Ok tt, w') else (Raise e', w')
    | r => r
    end.

(** [logger.debug(message)] *)
Definition log_debug (logger message : string) : M unit :=
  fun w => (Ok tt, add_log w (LogRecord logger logging_DEBUG message)).

(** Lookup in an association list, first entry first. *)
Fixpoint assoc (k : string) (l : list (string * string)) : option string :=
  match l with
  | [] => None
  | (k', v) :: r => if String.eqb k k' then Some v else assoc k r
  end.

(** [os.environ.get(name)] *)
Definition environ_get (w : world) (name : string) : option string :=
  assoc name (w_environ w).

(** What the store holds at a canonical path; the root is always there. *)
Definition node_at (fs : gmap string node) (p : string) : option node :=
  if String.eqb p "/" then Some Dir else fs !! p.

(** [os.path.exists(v)].  An integer argument names a file descriptor;
    descriptors are not part of the world. *)
Definition os_path_exists (v : pyval) : M bool :=
  match v with
  | PStr p =>
      if canonical p
      then fun w => (Ok (bool_decide (is_Some (node_at (w_fs w) p))), w)
      else beyond
  | PInt _ | PBool _ => beyond
  | PNone | PList _ | PDict _ => raise TypeError
  end.

(** [os.mkdir(p)] for a canonical [p] *)
Definition os_mkdir (p : string) : M unit :=
  fun w =>
    match node_at (w_fs w) p with
    | Some _ => (Raise FileExistsError, w)
    | None =>
        match node_at (w_fs w) (os_path_dirname p) with
        | None => (Raise FileNotFoundError, w)
        | Some (File _) => (Raise NotADirectoryError, w)
        | Some Dir => (Ok tt, set_fs w (<[p := Dir]> (w_fs w)))
        end
    end.

(** [os.makedirs(name)]: the recursion of [os.makedirs] on the head of the
    path, which is strictly shorter; [fuel] bounds it by the length of
    [name]. *)
Fixpoint makedirs_from (fuel : nat) (name : string) : M unit :=
  match fuel with
  | O => beyond
  | S fuel' =>
      let head := os_path_dirname name in
      let tail := os_path_basename name in
      (if negb (String.eqb head "") && negb (String.eqb tail "")
       then
         there <- os_path_exists (PStr head) ;;
         if negb there
         then except_pass (makedirs_from fuel' head) FileExistsError
         else ret tt
       else ret tt) ;;;
      os_mkdir name
  end.

Definition os_makedirs (v : pyval) : M unit :=
  match v with
  | PStr name =>
      if canonical name then makedirs_from (S (String.length name)) name
      else beyond
  | PInt _ | PBool _ => beyond
  | PNone | PList _ | PDict _ => raise TypeError
  end.

(** The part of [p] before its first [/] and the part from it on. *)
Fixpoint break_at_sep (p : string) : string * string :=
  match p with
  | EmptyString => ("", "")
  | String c r =>
      if Ascii.eqb c sep then ("", p)
      else let '(a, b) := break_at_sep r in (String c a, b)
  end.

(** [os.path.expanduser(path)] *)
Definition os_path_expanduser (w : world) (path : string) : string :=
  if negb (startswith path "~") then path
  else
    let '(user, rest) := break_at_sep (str_drop 1 path) in
    let home :=
      if String.eqb user ""
      then match environ_get w "HOME" with
           | Some h => Some h
           | None => w_pw_self w
           end
      else assoc user (w_pw w) in
    match home with
    | None => path
    | Some userhome =>
        let r := rstrip sep userhome ++ rest in
        if String.eqb r "" then "/" else r
    end.

(** ** The json library

    [json.dumps] and [json.loads] with their default settings
    ([ensure_ascii], separators [", "] and [": "], strict strings), on the
    values of [pyval].  Number literals with a fraction or an exponent, the
    literals [NaN] and [Infinity], and [\u] escapes of code points from 256
    on denote values outside [pyval]: the decoder answers [Unsupported].
    An integer of more than [MAX_STR_DIGITS] digits is converted by some
    interpreters and refused with [ValueError] by others, in the encoder as
    in the decoder: both are [Beyond] there.  The interpreter's recursion
    limit is not modelled. *)
Module Json.

Definition dquote : ascii := "034"%char.
Definition backslash : ascii := "092"%char.

(** *** Encoder *)

Definition hex_digit (n : N) : ascii :=
  if (n <? 10)%N then ascii_of_N (48 + n) else ascii_of_N (87 + n).

(** [ESCAPE_ASCII] and [ESCAPE_DCT]: the two-character escapes, and
    [\u00xx] for what is left outside [' '..'~']. *)
Definition escape_char (c : ascii) : string :=
  let n := N_of_ascii c in
  if (n =? 34)%N then String backslash (String dquote "")
  else if (n =? 92)%N then String backslash (String backslash "")
  else if (n =? 10)%N then String backslash "n"
  else if (n =? 13)%N then String backslash "r"
  else if (n =? 9)%N then String backslash "t"
  else if (n =? 12)%N then String backslash "f"
  else if (n =? 8)%N then String backslash "b"
  else if ((32 <=? n) && (n <=? 126))%N then String c ""
  else String backslash
         (String "u" (String "0" (String "0"
            (String (hex_digit (n / 16)) (String (hex_digit (n mod 16)) ""))))).

Fixpoint escape (s : string) : string :=
  match s with
  | EmptyString => EmptyString
  | String c r => escape_char c ++ escape r
  end.

(** [encode_basestring_ascii(s)] *)
Definition dumps_string (s : string) : string :=
  String dquote (escape s ++ String dquote "").

Definition digits (n : N) : string := NilEmpty.string_of_uint (N.to_uint n).

(** [sys.int_info.default_max_str_digits]: the most digits that an
    interpreter with the limit converts between [int] and [str]. *)
Definition MAX_STR_DIGITS : N := 4300.

Definition within_limit (ndigits : nat) : bool :=
  (N.of_nat ndigits <=? MAX_STR_DIGITS)%N.

(** The decimal text of an integer: [int.__repr__(z)] where it returns. *)
Definition int_repr (z : Z) : string :=
  if (z <? 0)%Z then String "-" (digits (Z.abs_N z)) else digits (Z.abs_N z).

(** [int.__repr__(z)] *)
Definition dumps_int (z : Z) : outcome string :=
  if within_limit (String.length (digits (Z.abs_N z))) then Ok (int_repr z)
  else Beyond.

(** The chunks of a container with [", "] between them. *)
Fixpoint concat_sep (pieces : list string) : string :=
  match pieces with
  | [] => ""
  | [x] => x
  | x :: r => x ++ ", " ++ concat_sep r
  end.

(** The chunks of the items of a container, if every one has a text. *)
Fixpoint sequence {A} (l : list (outcome A)) : outcome (list A) :=
  match l with
  | [] => Ok []
  | o :: r => x <-? o ;; xs <-? sequence r ;; Ok (x :: xs)
  end.

(** [json.dumps(v)] *)
Fixpoint dumps (v : pyval) : outcome string :=
  match v with
  | PNone => Ok "null"
  | PBool true => Ok "true"
  | PBool false => Ok "false"
  | PInt z => dumps_int z
  | PStr s => Ok (dumps_string s)
  | PList l =>
      pieces <-? sequence (map dumps l) ;;
      Ok ("[" ++ concat_sep pieces ++ "]")
  | PDict kvs =>
      pieces <-? sequence
                   (map (fun kv => t <-? dumps (snd kv) ;;
                                   Ok (dumps_string (fst kv) ++ ": " ++ t)) kvs) ;;
      Ok ("{" ++ concat_sep pieces ++ "}")
  end.

(** The text of a value all of whose integers are within the limit: what
    [dumps] returns where it returns, as a function of the value. *)
Fixpoint encode (v : pyval) : string :=
  match v with
  | PNone => "null"
  | PBool true => "true"
  | PBool false => "false"
  | PInt z => int_repr z
  | PStr s => dumps_string s
  | PList l => "[" ++ concat_sep (map encode l) ++ "]"
  | PDict kvs =>
      "{" ++
      concat_sep (map (fun kv => dumps_string (fst kv) ++ ": " ++ encode (snd kv)) kvs)
      ++ "}"
  end.

(** No integer of the value has more than [MAX_STR_DIGITS] digits. *)
Fixpoint limited (v : pyval) : bool :=
  match v with
  | PInt z => within_limit (String.length (digits (Z.abs_N z)))
  | PList l => forallb limited l
  | PDict kvs => forallb (fun kv => limited (snd kv)) kvs
  | _ => true
  end.

(** *** Decoder *)

Inductive parse (A : Type) : Type :=
| Parsed (a : A) (rest : string)
| Invalid          (* JSONDecodeError, a ValueError *)
| Unsupported.     (* the text denotes a value outside [pyval] *)
Arguments Parsed {A} a rest.
Arguments Invalid {A}.
Arguments Unsupported {A}.

Definition pmap {A B} (f : A -> B) (p : parse A) : parse B :=
  match p with
  | Parsed a rest => Parsed (f a) rest
  | Invalid => Invalid
  | Unsupported => Unsupported
  end.

(** [WHITESPACE = '[ \t\n\r]*'] *)
Definition is_ws (c : ascii) : bool :=
  let n := N_of_ascii c in
  ((n =? 32) || (n =? 9) || (n =? 10) || (n =? 13))%N.

Fixpoint skip_ws (s : string) : string :=
  match s with
  | EmptyString => EmptyString
  | String c r => if is_ws c then skip_ws r else s
  end.

Definition hex_val (c : ascii) : option N :=
  let n := N_of_ascii c in
  if ((48 <=? n) && (n <=? 57))%N then Some (n - 48)%N
  else if ((97 <=? n) && (n <=? 102))%N then Some (n - 87)%N
  else if ((65 <=? n) && (n <=? 70))%N then Some (n - 55)%N
  else None.

(** Where [scanstring] stands in a string literal: between characters,
    after a backslash, or inside [\u] with [k] more hex digits to come. *)
Inductive sstate : Type :=
| SNormal
| SEscape
| SUnicode (k : nat) (acc : N).

(** [scanstring(s, end)] from just after the opening quote *)
Fixpoint scanstring (st : sstate) (s : string) : parse string :=
  match s with
  | EmptyString => Invalid
  | String c r =>
      let n := N_of_ascii c in
      match st with
      | SNormal =>
          if (n =? 34)%N then Parsed "" r
          else if (n =? 92)%N then scanstring SEscape r
          else if (n <? 32)%N then Invalid
          else pmap (String c) (scanstring SNormal r)
      | SEscape =>
          if (n =? 34)%N || (n =? 92)%N || (n =? 47)%N
          then pmap (String c) (scanstring SNormal r)
          else if (n =? 98)%N then pmap (String "008"%char) (scanstring SNormal r)
          else if (n =? 102)%N then pmap (String "012"%char) (scanstring SNormal r)
          else if (n =? 110)%N then pmap (String "010"%char) (scanstring SNormal r)
          else if (n =? 114)%N then pmap (String "013"%char) (scanstring SNormal r)
          else if (n =? 116)%N then pmap (String "009"%char) (scanstring SNormal r)
          else if (n =? 117)%N then scanstring (SUnicode 4 0) r
          else Invalid
      | SUnicode k acc =>
          match hex_val c with
          | None => Invalid
          | Some h =>
              let acc' := (acc * 16 + h)%N in
              match k with
              | 0%nat | 1%nat =>
                  if (acc' <? 256)%N
                  then pmap (String (ascii_of_N acc')) (scanstring SNormal r)
                  else Unsupported
              | S k' => scanstring (SUnicode k' acc') r
              end
          end
      end
  end.

Definition is_digit (c : ascii) : bool :=
  let n := N_of_ascii c in ((48 <=? n) && (n <=? 57))%N.

(** The longest run of digits at the front of [s], and what follows. *)
Fixpoint span_digits (s : string) : string * string :=
  match s with
  | EmptyString => ("", "")
  | String c r =>
      if is_digit c
      then let '(ds, rest) := span_digits r in (String c ds, rest)
      else ("", s)
  end.

Definition starts_with_digit (s : string) : bool :=
  match s with
  | String c _ => is_digit c
  | EmptyString => false
  end.

(** Whether a fraction [\.\d+] or an exponent [[eE][-+]?\d+] follows the
    integer part: the literal is then a float. *)
Definition float_follows (s : string) : bool :=
  match s with
  | String "." r => starts_with_digit r
  | String "e" r | String "E" r =>
      match r with
      | String "-" r' | String "+" r' => starts_with_digit r'
      | _ => starts_with_digit r
      end
  | _ => false
  end.

(** The integer part [0|[1-9]\d*] of [NUMBER_RE]. *)
Definition scan_int_part (s : string) : option (N * string) :=
  match s with
  | String "0" r => Some (0%N, r)
  | String c _ =>
      if is_digit c
      then let '(ds, rest) := span_digits s in
           match NilEmpty.uint_of_string ds with
           | Some d => Some (N.of_uint d, rest)
           | None => None
           end
      else None
  | EmptyString => None
  end.

(** A number literal at the front of [s] ([match_number]); the digits of
    the integer part are those between [body] and [rest]. *)
Definition scan_number (s : string) : parse pyval :=
  let '(negative, body) :=
    match s with
    | String "-" r => (true, r)
    | _ => (false, s)
    end in
  match scan_int_part body with
  | Some (n, rest) =>
      if float_follows rest then Unsupported
      else if within_limit (String.length body - String.length rest)
      then Parsed (PInt (if negative then - Z.of_N n else Z.of_N n)) rest
      else Unsupported
  | None =>
      if startswith s "NaN" || startswith s "Infinity" || startswith s "-Infinity"
      then Unsupported else Invalid
  end.

(** [dict(pairs)]: a later pair replaces the value of an equal key. *)
Fixpoint dict_set (kvs : list (string * pyval)) (k : string) (v : pyval)
  : list (string * pyval) :=
  match kvs with
  | [] => [(k, v)]
  | (k', v') :: r =>
      if String.eqb k k' then (k', v) :: r else (k', v') :: dict_set r k v
  end.

Definition dict_of_pairs (pairs : list (string * pyval)) : list (string * pyval) :=
  fold_left (fun d kv => dict_set d (fst kv) (snd kv)) pairs [].

(** [scan_once], [JSONArray] and [JSONObject].  [fuel] bounds the nesting
    of calls; [loads] supplies more than a text of its length can use. *)
Fixpoint scan_once (fuel : nat) (s : string) : parse pyval :=
  match fuel with
  | O => Unsupported
  | S fuel' =>
      match s with
      | EmptyString => Invalid
      | String c r =>
          let n := N_of_ascii c in
          if (n =? 34)%N then pmap PStr (scanstring SNormal r)
          else if (n =? 123)%N then
            match skip_ws r with
            | String "}" rest => Parsed (PDict []) rest
            | String c' r' =>
                if (N_of_ascii c' =? 34)%N
                then pmap (fun ps => PDict (dict_of_pairs ps)) (scan_members fuel' r')
                else Invalid
            | EmptyString => Invalid
            end
          else if (n =? 91)%N then
            match skip_ws r with
            | String "]" rest => Parsed (PList []) rest
            | r' => pmap PList (scan_items fuel' r')
            end
          else if startswith s "null" then Parsed PNone (str_drop 4 s)
          else if startswith s "true" then Parsed (PBool true) (str_drop 4 s)
          else if startswith s "false" then Parsed (PBool false) (str_drop 5 s)
          else scan_number s
      end
  end

(** The values of an array from the start of one of them on. *)
with scan_items (fuel : nat) (s : string) : parse (list pyval) :=
  match fuel with
  | O => Unsupported
  | S fuel' =>
      match scan_once fuel' s with
      | Parsed v r1 =>
          match skip_ws r1 with
          | String "]" r2 => Parsed [v] r2
          | String "," r2 => pmap (cons v) (scan_items fuel' (skip_ws r2))
          | _ => Invalid
          end
      | Invalid => Invalid
      | Unsupported => Unsupported
      end
  end

(** The pairs of an object from just after the opening quote of a key on. *)
with scan_members (fuel : nat) (s : string) : parse (list (string * pyval)) :=
  match fuel with
  | O => Unsupported
  | S fuel' =>
      match scanstring SNormal s with
      | Parsed k r1 =>
          match skip_ws r1 with
          | String ":" r2 =>
              match scan_once fuel' (skip_ws r2) with
              | Parsed v r3 =>
                  match skip_ws r3 with
                  | String "}" r4 => Parsed [(k, v)] r4
                  | String "," r4 =>
                      match skip_ws r4 with
                      | String c' r5 =>
                          if (N_of_ascii c' =? 34)%N
                          then pmap (cons (k, v)) (scan_members fuel' r5)
                          else Invalid
                      | EmptyString => Invalid
                      end
                  | _ => Invalid
                  end
              | Invalid => Invalid
              | Unsupported => Unsupported
              end
          | _ => Invalid
          end
      | Invalid => Invalid
      | Unsupported => Unsupported
      end
  end.

(** [json.loads(s)]: one value, white space around it, nothing else. *)
Definition loads (s : string) : outcome pyval :=
  match scan_once (2 * String.length s + 2) (skip_ws s) with
  | Parsed v rest =>
      if String.eqb (skip_ws rest) "" then Ok v else Raise ValueError
  | Invalid => Raise ValueError
  | Unsupported => Beyond
  end.

(** *** Well-formed values and the shape of their encodings *)

(** Python mappings have distinct keys; on [pyval] this is a condition. *)
Fixpoint distinct (l : list string) : bool :=
  match l with
  | [] => true
  | x :: r => negb (existsb (String.eqb x) r) && distinct r
  end.

Fixpoint unique_keys (v : pyval) : bool :=
  match v with
  | PList l => forallb unique_keys l
  | PDict kvs =>
      distinct (map fst kvs) && forallb (fun kv => unique_keys (snd kv)) kvs
  | _ => true
  end.

(** Fuel that [Json.scan_once] needs to read the encoding of a value back. *)
Fixpoint weight (v : pyval) : nat :=
  match v with
  | PList l => S (list_sum (map (fun x => S (weight x)) l))
  | PDict kvs => S (list_sum (map (fun kv => S (weight (snd kv))) kvs))
  | _ => 1
  end.

(** What may follow a value inside a text: nothing, or one of [,], []] and
    [}]. *)
Definition delimited (rest : string) : bool :=
  match rest with
  | EmptyString => true
  | String c _ =>
      let n := N_of_ascii c in ((n =? 44) || (n =? 93) || (n =? 125))%N
  end.

(** The characters that the encoding of a value can begin with. *)
Definition value_start (c : ascii) : bool :=
  let n := N_of_ascii c in
  (is_digit c || (n =? 45) || (n =? 34) || (n =? 91) || (n =? 123)
   || (n =? 110) || (n =? 116) || (n =? 102))%N.

(** The chunk of one pair of a mapping. *)
Definition member_text (kv : string * pyval) : string :=
  dumps_string (fst kv) ++ ": " ++ encode (snd kv).

(** A decimal numeral that begins with a digit other than zero. *)
Definition first_nonzero (d : Decimal.uint) : Prop :=
  match d with
  | Decimal.Nil | Decimal.D0 _ => False
  | _ => True
  end.

(** What the round trip says of one value: with enough fuel and a
    delimiter behind it, the decoder reads its encoding back. *)
Definition reads_back (x : pyval) : Prop :=
  unique_keys x = true -> limited x = true ->
  forall fuel rest, weight x <= fuel -> delimited rest = true ->
  scan_once fuel (encode x ++ rest) = Parsed x rest.

End Json.

(** ** uaclient.util

    [util.py] is not among the sources at hand; its three helpers used by
    [config.py] are modelled from the specification. *)

(** Modelled from the spec: [util.load_file], "reads the full file
    content".  Opening a directory or a missing path raises. *)
Definition util_load_file (path : pyval) : M string :=
  match path with
  | PStr p =>
      if canonical p
      then fun w =>
             match node_at (w_fs w) p with
             | Some (File content) => (Ok content, w)
             | Some Dir => (Raise IsADirectoryError, w)
             | None => (Raise FileNotFoundError, w)
             end
      else beyond
  | PInt _ | PBool _ => beyond
  | PNone | PList _ | PDict _ => raise TypeError
  end.

(** Modelled from the spec: [util.write_file], "writes the full content to
    the resolved path, fully overwriting any prior content"; "filesystem
    errors on write propagate to the caller unmodified".  The errors that
    the store can tell are modelled: the target is a directory, or it has
    no parent directory.  Permissions and disk space are not. *)
Definition util_write_file (path : pyval) (content : string) : M unit :=
  match path with
  | PStr p =>
      if canonical p
      then fun w =>
             match node_at (w_fs w) p with
             | Some Dir => (Raise IsADirectoryError, w)
             | _ =>
                 match node_at (w_fs w) (os_path_dirname p) with
                 | None => (Raise FileNotFoundError, w)
                 | Some (File _) => (Raise NotADirectoryError, w)
                 | Some Dir => (Ok tt, set_fs w (<[p := File content]> (w_fs w)))
                 end
             end
      else beyond
  | PInt _ | PBool _ => beyond
  | PNone | PList _ | PDict _ => raise TypeError
  end.

(** Modelled from the spec: [util.maybe_parse_json], "attempts JSON
    parsing"; "unparsable JSON is not an error": the parsed value, or
    [None] when the text is not JSON. *)
Definition util_maybe_parse_json (content : string) : outcome pyval :=
  match Json.loads content with
  | Ok v => Ok v
  | Raise ValueError => Ok PNone
  | Raise e => Raise e
  | Beyond => Beyond
  end.

(** ** uaclient.config *)

Definition DEFAULT_CONFIG_FILE : string := "/etc/ubuntu-advantage/uaclient.conf".
Definition BASE_AUTH_URL : string := "https://login.ubuntu.com".
Definition BASE_SERVICE_URL : string := "https://uaservice.canonical.com".

Definition CONFIG_DEFAULTS : gmap string pyval :=
  list_to_map
    [("sso_auth_url", PStr BASE_AUTH_URL);
     ("service_url", PStr BASE_SERVICE_URL);
     ("data_dir", PStr "/var/lib/ubuntu-advantage");
     ("log_level", PInt logging_INFO)].

(** [d[k]] on a dict *)
Definition getitem (d : gmap string pyval) (k : string) : outcome pyval :=
  match d !! k with
  | Some v => Ok v
  | None => Raise KeyError
  end.

(** [for k, v in pairs: d[k] = v] *)
Definition set_all (d : gmap string pyval) (pairs : list (string * pyval))
  : gmap string pyval :=
  fold_left (fun d kv => <[fst kv := snd kv]> d) pairs d.

(** One element of the sequence form of [dict.update]: it must itself be a
    sequence of length two, read as a key and a value.  A key that is
    neither a string nor unhashable would make a mapping outside [pyval]. *)
Definition update_element (d : gmap string pyval) (item : pyval)
  : outcome (gmap string pyval) :=
  match item with
  | PList [PStr k; v] => Ok (<[k := v]> d)
  | PList [PList _; _] | PList [PDict _; _] => Raise TypeError
  | PList [_; _] => Beyond
  | PList _ => Raise ValueError
  | PStr (String a (String b EmptyString)) => Ok (<[String a "" := PStr (String b "")]> d)
  | PStr _ => Raise ValueError
  | PDict [(k1, _); (k2, _)] => Ok (<[k1 := PStr k2]> d)
  | PDict _ => Raise ValueError
  | PNone | PBool _ | PInt _ => Raise TypeError
  end.

Fixpoint update_elements (d : gmap string pyval) (items : list pyval)
  : outcome (gmap string pyval) :=
  match items with
  | [] => Ok d
  | item :: r => d' <-? update_element d item ;; update_elements d' r
  end.

(** [d.update(other)] *)
Definition dict_update (d : gmap string pyval) (other : pyval)
  : outcome (gmap string pyval) :=
  match other with
  | PDict kvs => Ok (set_all d kvs)
  | PList items => update_elements d items
  | PStr s =>
      update_elements d
        (map (fun c => PStr (String c "")) (list_ascii_of_string s))
  | PNone | PBool _ | PInt _ => Raise TypeError
  end.

(** [v.upper()]: only strings have the method. *)
Definition py_upper (v : pyval) : outcome pyval :=
  match v with
  | PStr s =>
      match str_upper s with
      | Some u => Ok (PStr u)
      | None => Beyond
      end
  | _ => Raise AttributeError
  end.

(** [os.path.expanduser(v)]: [os.fspath] rejects what is not a path. *)
Definition py_expanduser (v : pyval) : M pyval :=
  match v with
  | PStr s => fun w => (Ok (PStr (os_path_expanduser w s)), w)
  | _ => raise TypeError
  end.

(** The loop of [parse_config] over [os.environ.items()]. *)
Fixpoint collect_env (env : list (string * string)) (env_keys : gmap string pyval)
  : outcome (gmap string pyval) :=
  match env with
  | [] => Ok env_keys
  | (key, value) :: r =>
      if startswith key "UA_"
      then match str_lower key with
           | Some l => collect_env r (<[str_drop 3 l := PStr value]> env_keys)
           | None => Beyond
           end
      else collect_env r env_keys
  end.

(** What [yaml.load] makes of a text: a value, a [YAMLError], or a value
    outside [pyval]. *)
Inductive yaml_result : Type :=
| YamlValue (v : pyval)
| YamlFails
| YamlBeyond.

Definition of_yaml (r : yaml_result) : outcome pyval :=
  match r with
  | YamlValue v => Ok v
  | YamlFails => Raise YAMLError
  | YamlBeyond => Beyond
  end.

Section Config.

(** The YAML parser is a library used as it is; the development holds for
    any behaviour of it. *)
Variable yaml_load : string -> yaml_result.

(** [parse_config(config_path=None)] *)
Definition parse_config (config_path : option string) : M (gmap string pyval) :=
  let config_path :=
    match config_path with
    | Some p => if String.eqb p "" then DEFAULT_CONFIG_FILE else p
    | None => DEFAULT_CONFIG_FILE
    end in
  let cfg := CONFIG_DEFAULTS in
  fun w =>
  let local_cfg := os_path_join (w_cwd w) (os_path_basename config_path) in
  (local_exists <- os_path_exists (PStr local_cfg) ;;
   let config_path := if local_exists then local_cfg else config_path in
   let config_path :=
     match environ_get w "UA_CONFIG_FILE" with
     | Some p => if String.eqb p "" then config_path else p
     | None => config_path
     end in
   log_debug "uaclient.config"
     ("Using UA client configuration file at " ++ config_path) ;;;
   found <- os_path_exists (PStr config_path) ;;
   cfg <- (if found
           then content <- util_load_file (PStr config_path) ;;
                doc <- lift (of_yaml (yaml_load content)) ;;
                lift (dict_update cfg doc)
           else ret cfg) ;;
   env_keys <- lift (collect_env (w_environ w) ∅) ;;
   let cfg := env_keys ∪ cfg in
   log_level <- lift (getitem cfg "log_level") ;;
   log_level <- lift (py_upper log_level) ;;
   let cfg := <["log_level" := log_level]> cfg in
   data_dir <- lift (getitem cfg "data_dir") ;;
   data_dir <- py_expanduser data_dir ;;
   let cfg := <["data_dir" := data_dir]> cfg in
   ret cfg) w.

(** An instance of [UAConfig]: its configuration and its three memo
    fields, [None] in the class. *)
Record UAConfig : Type := mkUAConfig {
  cfg : gmap string pyval;
  _contracts : pyval;
  _entitlements : pyval;
  _machine_token : pyval
}.

(** [UAConfig.data_paths] *)
Definition data_paths : gmap string string :=
  list_to_map
    [("accounts", "accounts.json");
     ("account-contracts", "account-contracts.json");
     ("account-users", "account-users.json");
     ("machine-contracts", "machine-contracts.json");
     ("machine-access-esm", "machine-access-esm.json");
     ("machine-access-fips", "machine-access-fips.json");
     ("machine-access-fips-updates", "machine-access-fips-updates.json");
     ("machine-access-livepatch", "machine-access-livepatch.json");
     ("machine-detach", "machine-detach.json");
     ("machine-token", "machine-token.json");
     ("macaroon", "sso-macaroon.json");
     ("oauth", "sso-oauth.json")].

(** [UAConfig.__init__(self, cfg=None)]: an empty mapping is falsy too. *)
Definition __init__ (cfg : option (gmap string pyval)) : M UAConfig :=
  match cfg with
  | Some c =>
      if bool_decide (c = ∅)
      then c' <- parse_config None ;; ret (mkUAConfig c' PNone PNone PNone)
      else ret (mkUAConfig c PNone PNone PNone)
  | None => c' <- parse_config None ;; ret (mkUAConfig c' PNone PNone PNone)
  end.

(** [os.path.join(d, name)] on a configured value *)
Definition join_under (d : pyval) (name : string) : outcome pyval :=
  match d with
  | PStr a => Ok (PStr (os_path_join a name))
  | _ => Raise TypeError
  end.

(** [UAConfig.data_path(self, key)]; [None] is Python's [None]. *)
Definition data_path (self : UAConfig) (key : option string) : outcome pyval :=
  match key with
  | None => getitem (cfg self) "data_dir"
  | Some k =>
      if String.eqb k "" then getitem (cfg self) "data_dir"
      else match data_paths !! k with
           | Some name =>
               d <-? getitem (cfg self) "data_dir" ;; join_under d name
           | None =>
               d <-? getitem (cfg self) "data_dir" ;; join_under d k
           end
  end.

(** [UAConfig.read_cache(self, key)] *)
Definition read_cache (self : UAConfig) (key : option string) : M pyval :=
  cache_path <- lift (data_path self key) ;;
  there <- os_path_exists cache_path ;;
  if negb there
  then
    match cache_path with
    | PStr p => log_debug "root" ("File does not exist: " ++ p) ;;; ret PNone
    | _ => beyond
    end
  else
    content <- util_load_file cache_path ;;
    json_content <- lift (util_maybe_parse_json content) ;;
    ret (if truthy json_content then json_content else PStr content).

(** The property [UAConfig.data_dir] *)
Definition data_dir (self : UAConfig) : outcome pyval :=
  getitem (cfg self) "data_dir".

(** [if not isinstance(content, six.string_types):
       content = json.dumps(content)] *)
Definition cache_text (content : pyval) : outcome string :=
  match content with
  | PStr s => Ok s
  | _ => Json.dumps content
  end.

(** [UAConfig.write_cache(self, key, content)] *)
Definition write_cache (self : UAConfig) (key : option string) (content : pyval)
  : M unit :=
  d <- lift (data_dir self) ;;
  there <- os_path_exists d ;;
  (if negb there
   then d <- lift (data_dir self) ;; os_makedirs d
   else ret tt) ;;;
  filepath <- lift (data_path self key) ;;
  content <- lift (cache_text content) ;;
  util_write_file filepath content.

(** The property [UAConfig.accounts] *)
Definition accounts (self : UAConfig) : M pyval :=
  read_cache self (Some "accounts").

(** The property [UAConfig.contract_url] *)
Definition contract_url (self : UAConfig) : outcome pyval :=
  getitem (cfg self) "contract_url".

(** The property [UAConfig.log_level] *)
Definition log_level (self : UAConfig) : outcome pyval :=
  d <-? getitem CONFIG_DEFAULTS "log_level" ;;
  Ok (default d (cfg self !! "log_level")).

(** The property [UAConfig.sso_auth_url] *)
Definition sso_auth_url (self : UAConfig) : outcome pyval :=
  getitem (cfg self) "sso_auth_url".

(** The property [UAConfig.contracts]; the instance comes back with its
    memo field assigned. *)
Definition contracts (self : UAConfig) : M (pyval * UAConfig) :=
  self <- (if negb (truthy (_contracts self))
           then v <- read_cache self (Some "account-contracts") ;;
                ret (mkUAConfig (cfg self) v (_entitlements self) (_machine_token self))
           else ret self) ;;
  ret (if truthy (_contracts self) then _contracts self else PList [], self).

(** The property [UAConfig.machine_token] *)
Definition machine_token (self : UAConfig) : M (pyval * UAConfig) :=
  self <- (if negb (truthy (_machine_token self))
           then v <- read_cache self (Some "machine-token") ;;
                ret (mkUAConfig (cfg self) (_contracts self) (_entitlements self) v)
           else ret self) ;;
  ret (_machine_token self, self).

(** The property [UAConfig.is_attached] *)
Definition is_attached (self : UAConfig) : M (bool * UAConfig) :=
  r <- machine_token self ;;
  ret (truthy (fst r), snd r).

End Config.

(** ** Worlds and instances used to exercise the definitions *)

(** A YAML parser that is never reached when no configuration file exists. *)
Definition yaml_unused (_ : string) : yaml_result := YamlFails.

(** A YAML parser that knows one document. *)
Definition yaml_one (text : string) (v : pyval) (s : string) : yaml_result :=
  if String.eqb s text then YamlValue v else YamlFails.

(** A fresh machine: an empty store, a home directory, nothing else. *)
Definition bare_world : world :=
  World ∅ [] [("HOME", "/root")] "/root" (Some "/root") [].

(** The same machine with overrides in the environment. *)
Definition overridden_world : world :=
  World ∅ []
    [("HOME", "/root"); ("UA_LOG_LEVEL", "debug"); ("UA_FOO", "1");
     ("UA_foo", "2"); ("UA_DATA_DIR", "~/ua")]
    "/root" (Some "/root") [].

(** [UAConfig(cfg=CONFIG_DEFAULTS)] *)
Definition default_instance : UAConfig :=
  mkUAConfig CONFIG_DEFAULTS PNone PNone PNone.

(** A cache text that is JSON for a falsy value. *)
Definition encodes_falsy (content : string) : Prop :=
  exists v, Json.loads content = Ok v /\ truthy v = false.

(** The six falsy texts: [0], [false], [null], the empty object, the empty
    array and the empty string literal. *)
Definition falsy_texts : list string :=
  ["0"; "false"; "null"; "{}"; "[]"; String Json.dquote (String Json.dquote "")].

(** A machine whose cache holds the text of an empty JSON object. *)
Definition falsy_cache_world : world :=
  World
    (<["/var/lib/ubuntu-advantage/accounts.json" := File "{}"]>
       (<["/var/lib/ubuntu-advantage" := Dir]>
          (<["/var/lib" := Dir]> (<["/var" := Dir]> ∅))))
    [] [("HOME", "/root")] "/root" (Some "/root") [].

(** A machine with a configuration file at the default place; its text is
    a YAML flow mapping. *)
Definition configured_text : string :=
  "{log_level: info, contract_url: https://contracts.canonical.com}".

Definition configured_doc : pyval :=
  PDict [("log_level", PStr "info");
         ("contract_url", PStr "https://contracts.canonical.com")].

Definition configured_world : world :=
  World
    (<[DEFAULT_CONFIG_FILE := File configured_text]>
       (<["/etc/ubuntu-advantage" := Dir]> (<["/etc" := Dir]> ∅)))
    [] [("HOME", "/root"); ("UA_SERVICE_URL", "http://localhost:8080")]
    "/root" (Some "/root") [].

(** A machine where all three layers speak: the file sets [log_level] and
    [service_url], the environment sets [log_level] again. *)
Definition layered_text : string :=
  "{log_level: info, service_url: 'http://localhost:8080'}".

Definition layered_doc : pyval :=
  PDict [("log_level", PStr "info");
         ("service_url", PStr "http://localhost:8080")].

Definition layered_world : world :=
  World
    (<[DEFAULT_CONFIG_FILE := File layered_text]>
       (<["/etc/ubuntu-advantage" := Dir]> (<["/etc" := Dir]> ∅)))
    [] [("HOME", "/root"); ("UA_LOG_LEVEL", "debug")]
    "/root" (Some "/root") [].

(** The key that an environment variable sets in the configuration, if
    any: [key.lower()[3:]] for a name that starts with [UA_]. *)
Definition env_key (name : string) : option string :=
  if startswith name "UA_" then option_map (str_drop 3) (str_lower name) else None.

(** What the last two assignments of [parse_config] make of the merged
    value of a key: [log_level] is uppercased, [data_dir] is expanded, any
    other key is left as merged. *)
Definition resolved (w : world) (k : string) (v : pyval) : option pyval :=
  if String.eqb k "log_level" then
    match v with
    | PStr s => option_map PStr (str_upper s)
    | _ => None
    end
  else if String.eqb k "data_dir" then
    match v with
    | PStr s => Some (PStr (os_path_expanduser w s))
    | _ => None
    end
  else Some v.

(** The mapping under the environment layer: the defaults alone, or the
    defaults updated with the document of a file of the store. *)
Definition file_layer (yaml_load : string -> yaml_result) (w : world)
    (base : gmap string pyval) : Prop :=
  base = CONFIG_DEFAULTS \/
  exists path content doc,
    node_at (w_fs w) path = Some (File content) /\
    yaml_load content = YamlValue doc /\
    dict_update CONFIG_DEFAULTS doc = Ok base.

(** Nothing is stored at the canonical path [path]. *)
Definition absent (w : world) (path : string) : Prop :=
  canonical path = true /\ node_at (w_fs w) path = None.

(** The path that [parse_config] starts from. *)
Definition requested_path (config_path : option string) : string :=
  match config_path with
  | Some p => if String.eqb p "" then DEFAULT_CONFIG_FILE else p
  | None => DEFAULT_CONFIG_FILE
  end.

(** The four keys of [CONFIG_DEFAULTS]. *)
Definition default_keys : list string :=
  ["sso_auth_url"; "service_url"; "data_dir"; "log_level"].

(** A computation that raises [ConfigAbsentError] from no world. *)
Definition quiet {A} (m : M A) : Prop :=
  forall w, fst (m w) <> Raise ConfigAbsentError.

(** ** uaclient.config, continued: the entitlements of the contracts *)

(** [d.get(k)] on the pairs of a mapping *)
Fixpoint dict_get (kvs : list (string * pyval)) (k : string) : option pyval :=
  match kvs with
  | [] => None
  | (k', v) :: r => if String.eqb k k' then Some v else dict_get r k
  end.

(** [v[k]] for a string [k]: only a mapping can be indexed by a string. *)
Definition py_getitem (v : pyval) (k : string) : outcome pyval :=
  match v with
  | PDict kvs =>
      match dict_get kvs k with
      | Some x => Ok x
      | None => Raise KeyError
      end
  | _ => Raise TypeError
  end.

(** [v.keys()]: only a mapping has the method. *)
Definition py_keys (v : pyval) : outcome (list string) :=
  match v with
  | PDict kvs => Ok (map fst kvs)
  | _ => Raise AttributeError
  end.

(** What [for x in v] goes through: the items of a sequence, the keys of a
    mapping, the characters of a string. *)
Definition py_iter (v : pyval) : outcome (list pyval) :=
  match v with
  | PList l => Ok l
  | PDict kvs => Ok (map (fun kv => PStr (fst kv)) kvs)
  | PStr s => Ok (map (fun c => PStr (String c "")) (list_ascii_of_string s))
  | PNone | PBool _ | PInt _ => Raise TypeError
  end.

(** A run of [entitlements]: its outcome, the mapping [self._entitlements]
    as the run leaves it (assignments made before an exception stay), and
    the world. *)
Definition ents_run : Type := outcome unit * list (string * pyval) * world.

(** [for entitlement_name in ent_names:
       self._entitlements[entitlement_name] = self.read_cache(...)] *)
Fixpoint entitlements_names (self : UAConfig) (names : list string)
    (ents : list (string * pyval)) (w : world) : ents_run :=
  match names with
  | [] => (Ok tt, ents, w)
  | entitlement_name :: r =>
      match read_cache self (Some ("machine-access-" ++ entitlement_name)) w with
      | (Ok v, w1) =>
          entitlements_names self r (Json.dict_set ents entitlement_name v) w1
      | (Raise e, w1) => (Raise e, ents, w1)
      | (Beyond, w1) => (Beyond, ents, w1)
      end
  end.

(** [contract['contractInfo']['resourceEntitlements'].keys()] *)
Definition ent_names (contract : pyval) : outcome (list string) :=
  info <-? py_getitem contract "contractInfo" ;;
  res <-? py_getitem info "resourceEntitlements" ;;
  py_keys res.

(** [for contract in self.contracts: ...] *)
Fixpoint entitlements_contracts (self : UAConfig) (items : list pyval)
    (ents : list (string * pyval)) (w : world) : ents_run :=
  match items with
  | [] => (Ok tt, ents, w)
  | contract :: r =>
      match ent_names contract with
      | Ok names =>
          match entitlements_names self names ents w with
          | (Ok _, ents1, w1) => entitlements_contracts self r ents1 w1
          | other => other
          end
      | Raise e => (Raise e, ents, w)
      | Beyond => (Beyond, ents, w)
      end
  end.

Definition set_entitlements (self : UAConfig) (v : pyval) : UAConfig :=
  mkUAConfig (cfg self) (_contracts self) v (_machine_token self).

(** The property [UAConfig.entitlements]; the instance comes back as the
    call leaves it, also when the call raises. *)
Definition entitlements (self : UAConfig) (w : world)
  : outcome pyval * UAConfig * world :=
  if truthy (_entitlements self) then (Ok (_entitlements self), self, w)
  else
    let self := set_entitlements self (PDict []) in
    match contracts self w with
    | (Ok (cs, self), w1) =>
        match py_iter cs with
        | Ok items =>
            match entitlements_contracts self items [] w1 with
            | (Ok _, ents, w2) =>
                (Ok (PDict ents), set_entitlements self (PDict ents), w2)
            | (Raise e, ents, w2) =>
                (Raise e, set_entitlements self (PDict ents), w2)
            | (Beyond, ents, w2) =>
                (Beyond, set_entitlements self (PDict ents), w2)
            end
        | Raise e => (Raise e, self, w1)
        | Beyond => (Beyond, self, w1)
        end
    | (Raise e, w1) => (Raise e, self, w1)
    | (Beyond, w1) => (Beyond, self, w1)
    end.

(** A machine whose cache holds one contract with two entitlements, and the
    access record of one of them. *)
Definition contract_text : string :=
  "[{" ++ String Json.dquote "contractInfo" ++ String Json.dquote ": {"
  ++ String Json.dquote "resourceEntitlements" ++ String Json.dquote ": {"
  ++ String Json.dquote "esm" ++ String Json.dquote ": {}, "
  ++ String Json.dquote "livepatch" ++ String Json.dquote ": {}}}}]".

Definition entitled_world : world :=
  World
    (<["/var/lib/ubuntu-advantage/machine-access-esm.json" := File "[1, 2]"]>
       (<["/var/lib/ubuntu-advantage/account-contracts.json" := File contract_text]>
          (<["/var/lib/ubuntu-advantage" := Dir]>
             (<["/var/lib" := Dir]> (<["/var" := Dir]> ∅)))))
    [] [("HOME", "/root")] "/root" (Some "/root") [].

(** ** Paths as lists of names *)



(** The canonical path of a list of components: [/c1/c2/.../cn]. *)
Fixpoint render (cs : list string) : string :=
  match cs with
  | [] => ""
  | c :: r => "/" ++ c ++ render r
  end.



(** ** Notions used in the statements on the resolver and the memo fields *)

(** A computation that leaves the world as it finds it. *)
Definition stable {A} (m : M A) : Prop := forall w, snd (m w) = w.

(** The file that [parse_config] settles on, once it knows whether the
    working directory has a file of the requested name: the file named by
    [UA_CONFIG_FILE], else that local file, else the requested one. *)
Definition chosen_config_file (w : world) (config_path : option string)
    (local_exists : bool) : string :=
  let requested := requested_path config_path in
  let local_cfg := os_path_join (w_cwd w) (os_path_basename requested) in
  let config_path := if local_exists then local_cfg else requested in
  match environ_get w "UA_CONFIG_FILE" with
  | Some p => if String.eqb p "" then config_path else p
  | None => config_path
  end.

(** No variable of the environment sets the key [k]. *)
Definition unset_in_env (w : world) (k : string) : Prop :=
  Forall (fun kv => env_key (fst kv) <> Some k) (w_environ w).

(** A machine whose contracts cache is the text of an empty list. *)
Definition empty_contracts_world : world :=
  World
    (<["/var/lib/ubuntu-advantage/account-contracts.json" := File "[]"]>
       (<["/var/lib/ubuntu-advantage" := Dir]>
          (<["/var/lib" := Dir]> (<["/var" := Dir]> ∅))))
    [] [("HOME", "/root")] "/root" (Some "/root") [].

(** Every entry of the mapping is what [read_cache] gives for its name on
    the store [fs]. *)
Definition entries_from (self : UAConfig) (fs : gmap string node)
    (ents : list (string * pyval)) : Prop :=
  forall n v w, w_fs w = fs -> dict_get ents n = Some v ->
    fst (read_cache self (Some ("machine-access-" ++ n)) w) = Ok v.

(** * Properties *)

(** ** Runs of [M] *)

Lemma bind_Ok {A B} (m : M A) (k : A -> M B) w a w1 :
  m w = (Ok a, w1) -> bind m k w = k a w1.
Proof. unfold bind. now intros ->. Qed.

Lemma bind_Ok_inv {A B} (m : M A) (k : A -> M B) w b w' :
  bind m k w = (Ok b, w') ->
  exists a w1, m w = (Ok a, w1) /\ k a w1 = (Ok b, w').
Proof.
  unfold bind. destruct (m w) as [[a | e |] w1]; intros H; try discriminate.
  now exists a, w1.
Qed.

Lemma lift_Ok_inv {A} (o : outcome A) w a w' :
  lift o w = (Ok a, w') -> o = Ok a /\ w' = w.
Proof. unfold lift. intros [= -> ->]. auto. Qed.

Lemma obind_Ok_inv {A B} (o : outcome A) (k : A -> outcome B) b :
  obind o k = Ok b -> exists a, o = Ok a /\ k a = Ok b.
Proof. destruct o; simpl; intros H; try discriminate. eauto. Qed.

Lemma os_path_exists_absent p w :
  canonical p = true -> node_at (w_fs w) p = None ->
  os_path_exists (PStr p) w = (Ok false, w).
Proof.
  intros Hc Hn. unfold os_path_exists. rewrite Hc, Hn.
  rewrite bool_decide_eq_false_2; [reflexivity | apply is_Some_None].
Qed.

Lemma os_path_exists_present p n w :
  canonical p = true -> node_at (w_fs w) p = Some n ->
  os_path_exists (PStr p) w = (Ok true, w).
Proof.
  intros Hc Hn. unfold os_path_exists. rewrite Hc, Hn.
  rewrite bool_decide_eq_true_2; [reflexivity | eauto].
Qed.

(** ** The cache accessors *)

(** C4. [data_path] is a total function of the key and of the configured
    data directory [d]: an absent or empty key gives [d]; a key of the
    table [data_paths] gives [os.path.join(d, name)] for its file name; any
    other key gives [os.path.join(d, key)]; the memo fields and the other
    settings of the instance play no part.  With the default directory,
    ['machine-token'] gives [/var/lib/ubuntu-advantage/machine-token.json]
    and ['unknown-key'] gives [/var/lib/ubuntu-advantage/unknown-key]. *)
Theorem data_path_spec (self : UAConfig) (d : string)
    (Hd : cfg self !! "data_dir" = Some (PStr d)) :
  data_path self None = Ok (PStr d) /\
  data_path self (Some "") = Ok (PStr d) /\
  (forall k name, data_paths !! k = Some name ->
     data_path self (Some k) = Ok (PStr (os_path_join d name))) /\
  (forall k, k <> "" -> data_paths !! k = None ->
     data_path self (Some k) = Ok (PStr (os_path_join d k))) /\
  (forall other key, cfg other !! "data_dir" = Some (PStr d) ->
     data_path other key = data_path self key) /\
  CONFIG_DEFAULTS !! "data_dir" = Some (PStr "/var/lib/ubuntu-advantage") /\
  (d = "/var/lib/ubuntu-advantage" ->
     data_path self (Some "machine-token")
       = Ok (PStr "/var/lib/ubuntu-advantage/machine-token.json") /\
     data_path self (Some "unknown-key")
       = Ok (PStr "/var/lib/ubuntu-advantage/unknown-key")).
Proof.
  assert (Hk : forall s key, cfg s !! "data_dir" = Some (PStr d) ->
            data_path s key =
            match key with
            | None => Ok (PStr d)
            | Some k =>
                if String.eqb k "" then Ok (PStr d)
                else Ok (PStr (os_path_join d (default k (data_paths !! k))))
            end).
  { intros s key Hs. unfold data_path, getitem. rewrite Hs.
    destruct key as [k |]; [| reflexivity].
    destruct (String.eqb k ""); [reflexivity |].
    destruct (data_paths !! k); reflexivity. }
  split; [now rewrite Hk |]. split; [now rewrite Hk |].
  split; [| split; [| split; [| split; [reflexivity |]]]].
  - intros k name Hn. rewrite Hk by assumption. rewrite Hn. simpl.
    destruct (String.eqb_spec k "") as [-> |]; [discriminate Hn | reflexivity].
  - intros k Hne Hn. rewrite Hk by assumption. rewrite Hn. simpl.
    destruct (String.eqb_spec k ""); [contradiction | reflexivity].
  - intros other key Ho. now rewrite !Hk.
  - intros ->. split; now rewrite Hk.
Qed.

Lemma data_path_spec_witness :
  cfg default_instance !! "data_dir" = Some (PStr "/var/lib/ubuntu-advantage") /\
  data_path default_instance (Some "oauth")
    = Ok (PStr "/var/lib/ubuntu-advantage/sso-oauth.json").
Proof.
  split; [reflexivity |].
  exact (proj1 (proj2 (proj2
           (data_path_spec default_instance "/var/lib/ubuntu-advantage" eq_refl)))
         "oauth" "sso-oauth.json" eq_refl).
Defined.

(** [read_cache] on a path that is not in the store. *)
Lemma read_cache_missing (self : UAConfig) (key : option string)
    (p : string) (w : world) :
  data_path self key = Ok (PStr p) ->
  canonical p = true ->
  node_at (w_fs w) p = None ->
  read_cache self key w
    = (Ok PNone,
       add_log w (LogRecord "root" logging_DEBUG ("File does not exist: " ++ p))).
Proof.
  intros Hpath Hcanon Habsent. unfold read_cache.
  rewrite (bind_Ok _ _ w (PStr p) w) by (unfold lift; now rewrite Hpath).
  rewrite (bind_Ok _ _ w false w) by now apply os_path_exists_absent.
  reflexivity.
Qed.

(** C5. When the path that the key resolves to does not exist, [read_cache]
    returns [None] and raises nothing; the only trace of the call is one
    debug record in the log, and the file store afterwards is the file
    store before. *)
Theorem read_cache_absent (self : UAConfig) (key : option string)
    (p : string) (w : world)
    (Hpath : data_path self key = Ok (PStr p))
    (Hcanon : canonical p = true)
    (Habsent : node_at (w_fs w) p = None) :
  exists w',
    read_cache self key w = (Ok PNone, w') /\
    w_fs w' = w_fs w /\
    w_log w' =
      (w_log w ++ [LogRecord "root" logging_DEBUG ("File does not exist: " ++ p)])%list.
Proof.
  rewrite (read_cache_missing self key p w Hpath Hcanon Habsent).
  eexists. split; [reflexivity |]. split; reflexivity.
Qed.

Lemma read_cache_absent_witness :
  node_at (w_fs bare_world) "/var/lib/ubuntu-advantage/accounts.json" = None /\
  exists w', read_cache default_instance (Some "accounts") bare_world = (Ok PNone, w') /\
             w_fs w' = w_fs bare_world.
Proof.
  split; [reflexivity |].
  destruct (read_cache_absent default_instance (Some "accounts")
              "/var/lib/ubuntu-advantage/accounts.json" bare_world
              eq_refl eq_refl eq_refl) as [w' [H1 [H2 _]]].
  exists w'. split; assumption.
Defined.

(** C10. When the cache file of a key exists and its text is JSON for a
    falsy value, [read_cache] returns the text itself, not the parsed
    value: the parsed value is returned only when it is truthy.  The texts
    [0], [false], [null], the empty object, the empty array and the empty
    string literal are all of this kind. *)
Theorem read_cache_falsy_json :
  Forall encodes_falsy falsy_texts /\
  forall (self : UAConfig) (key : option string) (p content : string) (w : world),
    data_path self key = Ok (PStr p) ->
    canonical p = true ->
    node_at (w_fs w) p = Some (File content) ->
    encodes_falsy content ->
    read_cache self key w = (Ok (PStr content), w).
Proof.
  split.
  - unfold falsy_texts, encodes_falsy.
    repeat (constructor; [eexists; split; vm_compute; reflexivity |]).
    constructor.
  - intros self key p content w Hpath Hcanon Hfile (v & Hv & Hfalse).
    unfold read_cache.
    rewrite (bind_Ok _ _ w (PStr p) w) by (unfold lift; now rewrite Hpath).
    rewrite (bind_Ok _ _ w true w) by now apply os_path_exists_present with (File content).
    cbn [negb]. cbv beta iota.
    rewrite (bind_Ok _ _ w content w)
      by (unfold util_load_file; now rewrite Hcanon, Hfile).
    rewrite (bind_Ok _ _ w v w)
      by (unfold lift, util_maybe_parse_json; now rewrite Hv).
    unfold ret. now rewrite Hfalse.
Qed.

Lemma read_cache_falsy_json_witness :
  encodes_falsy "{}" /\
  read_cache default_instance (Some "accounts") falsy_cache_world
    = (Ok (PStr "{}"), falsy_cache_world).
Proof.
  assert (H : encodes_falsy "{}").
  { exists (PDict []). split; vm_compute; reflexivity. }
  split; [exact H |].
  exact (proj2 read_cache_falsy_json default_instance (Some "accounts")
           "/var/lib/ubuntu-advantage/accounts.json" "{}" falsy_cache_world
           eq_refl eq_refl eq_refl H).
Defined.

(** C9. [contract_url] is not among the defaults, and on an instance whose
    configuration has no ['contract_url'] the property [contract_url]
    raises [KeyError]. *)
Theorem contract_url_missing :
  CONFIG_DEFAULTS !! "contract_url" = None /\
  forall self : UAConfig,
    cfg self !! "contract_url" = None -> contract_url self = Raise KeyError.
Proof.
  split; [reflexivity |].
  intros self H. unfold contract_url, getitem. now rewrite H.
Qed.

Lemma contract_url_missing_witness :
  cfg default_instance !! "contract_url" = None /\
  contract_url default_instance = Raise KeyError.
Proof.
  split; [reflexivity |].
  exact (proj2 contract_url_missing default_instance eq_refl).
Defined.

(** ** The configuration resolver *)

Lemma os_path_exists_world v w r w1 :
  os_path_exists v w = (r, w1) -> w1 = w.
Proof.
  destruct v; simpl; unfold beyond, raise; try (now intros [= _ <-]).
  destruct (canonical s); now intros [= _ <-].
Qed.

Lemma util_load_file_inv v w content w1 :
  util_load_file v w = (Ok content, w1) ->
  w1 = w /\ exists p, v = PStr p /\ node_at (w_fs w) p = Some (File content).
Proof.
  destruct v; simpl; unfold beyond, raise; try discriminate.
  destruct (canonical s); [| discriminate].
  destruct (node_at (w_fs w) s) as [[| c] |] eqn:E; intros [= <- <-]; eauto.
Qed.

Lemma set_all_keeps pairs : forall (d : gmap string pyval) k,
  is_Some (d !! k) -> is_Some (set_all d pairs !! k).
Proof.
  unfold set_all. induction pairs as [| [k' v'] r IH]; intros d k H; simpl; [assumption |].
  apply IH. destruct (decide (k' = k)) as [-> |].
  - rewrite lookup_insert_eq. eauto.
  - now rewrite lookup_insert_ne.
Qed.

Lemma update_element_keeps d item d' k :
  update_element d item = Ok d' -> is_Some (d !! k) -> is_Some (d' !! k).
Proof.
  assert (Hins : forall k' v, is_Some (d !! k) -> is_Some (<[k' := v]> d !! k)).
  { intros k' v H. destruct (decide (k' = k)) as [-> |].
    - rewrite lookup_insert_eq. eauto.
    - now rewrite lookup_insert_ne. }
  intros Hu Hk. unfold update_element in Hu.
  repeat match type of Hu with
         | Ok _ = Ok _ => injection Hu as <-; now apply Hins
         | match ?x with _ => _ end = Ok _ => destruct x; try discriminate
         end.
Qed.

Lemma update_elements_keeps items : forall d d' k,
  update_elements d items = Ok d' -> is_Some (d !! k) -> is_Some (d' !! k).
Proof.
  induction items as [| item r IH]; intros d d' k H Hk; simpl in H.
  - now injection H as <-.
  - apply obind_Ok_inv in H as (d1 & H1 & H2).
    eapply IH; [exact H2 |]. eapply update_element_keeps; eassumption.
Qed.

(** [dict.update] never removes a key. *)
Lemma dict_update_keeps d other d' k :
  dict_update d other = Ok d' -> is_Some (d !! k) -> is_Some (d' !! k).
Proof.
  destruct other; simpl; intros H Hk; try discriminate.
  - eapply update_elements_keeps; eassumption.
  - eapply update_elements_keeps; eassumption.
  - injection H as <-. now apply set_all_keeps.
Qed.

(** The shape of every configuration that [parse_config] returns. *)
Lemma parse_config_Ok_inv yaml_load p w cfg w' :
  parse_config yaml_load p w = (Ok cfg, w') ->
  exists base env_keys lv u dd,
    file_layer yaml_load w base /\
    collect_env (w_environ w) ∅ = Ok env_keys /\
    (env_keys ∪ base) !! "log_level" = Some (PStr lv) /\
    str_upper lv = Some u /\
    <["log_level" := PStr u]> (env_keys ∪ base) !! "data_dir" = Some (PStr dd) /\
    cfg = <["data_dir" := PStr (os_path_expanduser w dd)]>
            (<["log_level" := PStr u]> (env_keys ∪ base)).
Proof.
  unfold parse_config. intros H.
  apply bind_Ok_inv in H as (le & w1 & H1 & H).
  apply os_path_exists_world in H1 as ->.
  apply bind_Ok_inv in H as ([] & w2 & H2 & H).
  unfold log_debug in H2. injection H2 as <-.
  apply bind_Ok_inv in H as (found & w3 & H3 & H).
  apply os_path_exists_world in H3 as ->.
  apply bind_Ok_inv in H as (base & w4 & Hbase & H).
  apply bind_Ok_inv in H as (env_keys & w5 & Henv & H).
  apply lift_Ok_inv in Henv as [Henv ->].
  apply bind_Ok_inv in H as (lv0 & w6 & Hlv & H).
  apply lift_Ok_inv in Hlv as [Hlv ->].
  apply bind_Ok_inv in H as (lv1 & w7 & Hup & H).
  apply lift_Ok_inv in Hup as [Hup ->].
  apply bind_Ok_inv in H as (dd0 & w8 & Hdd & H).
  apply lift_Ok_inv in Hdd as [Hdd ->].
  apply bind_Ok_inv in H as (dd1 & w9 & Hex & H).
  unfold ret in H. injection H as <- <-.
  unfold getitem in Hlv, Hdd.
  destruct ((env_keys ∪ base) !! "log_level") as [lvv |] eqn:Elv; [| discriminate].
  injection Hlv as ->.
  destruct lv0 as [| | | lv | |]; simpl in Hup; try discriminate.
  destruct (str_upper lv) as [u |] eqn:Eu; [| discriminate].
  injection Hup as <-.
  destruct (<["log_level" := PStr u]> (env_keys ∪ base) !! "data_dir")
    as [ddv |] eqn:Edd; [| discriminate].
  injection Hdd as ->.
  destruct dd0 as [| | | dd | |]; simpl in Hex; unfold raise in Hex; try discriminate.
  injection Hex as <- <-.
  match type of Hbase with _ ?wl = _ => set (w_logged := wl) in * end.
  assert (Hlayer : file_layer yaml_load w base /\ w4 = w_logged).
  { destruct found.
    - apply bind_Ok_inv in Hbase as (content & wa & Hload & Hbase).
      apply util_load_file_inv in Hload as (-> & path & _ & Hnode).
      apply bind_Ok_inv in Hbase as (doc & wb & Hdoc & Hbase).
      apply lift_Ok_inv in Hdoc as [Hdoc ->].
      apply lift_Ok_inv in Hbase as [Hbase ->].
      split; [| reflexivity].
      right. exists path, content, doc. split; [exact Hnode |]. split; [| exact Hbase].
      destruct (yaml_load content); simpl in Hdoc; congruence.
    - unfold ret in Hbase. injection Hbase as <- <-. split; [now left | reflexivity]. }
  destruct Hlayer as [Hlayer ->].
  exists base, env_keys, lv, u, dd.
  repeat split; assumption || reflexivity.
Qed.

(** C7. Every key of the defaults, [sso_auth_url], [service_url],
    [data_dir] and [log_level], is a key of every mapping that
    [parse_config] returns, whatever the configuration file and the
    environment hold: the layers above the defaults replace values, they
    remove no key. *)
Theorem parse_config_keeps_defaults :
  (forall k, In k default_keys <-> is_Some (CONFIG_DEFAULTS !! k)) /\
  forall yaml_load p w cfg w',
    parse_config yaml_load p w = (Ok cfg, w') ->
    forall k, is_Some (CONFIG_DEFAULTS !! k) -> is_Some (cfg !! k).
Proof.
  split.
  - intros k. unfold CONFIG_DEFAULTS, default_keys. simpl.
    rewrite !lookup_insert_is_Some, lookup_empty, <- not_eq_None_Some.
    intuition congruence.
  - intros yaml_load p w cfg w' H k Hk.
    apply parse_config_Ok_inv in H
      as (base & env_keys & lv & u & dd & Hlayer & _ & _ & _ & _ & ->).
    assert (Hbase : is_Some (base !! k)).
    { destruct Hlayer as [-> | (path & content & doc & _ & _ & Hup)]; [assumption |].
      eapply dict_update_keeps; eassumption. }
    rewrite !lookup_insert_is_Some'. right. right.
    rewrite lookup_union_is_Some. now right.
Qed.

Lemma parse_config_keeps_defaults_witness :
  exists cfg w',
    parse_config yaml_unused None overridden_world = (Ok cfg, w') /\
    is_Some (cfg !! "service_url").
Proof.
  assert (Hrun : is_ok (fst (parse_config yaml_unused None overridden_world)) = true)
    by (vm_compute; reflexivity).
  destruct (parse_config yaml_unused None overridden_world) as [[c | e |] w'] eqn:E;
    try discriminate Hrun.
  exists c, w'. split; [reflexivity |].
  apply (proj2 parse_config_keeps_defaults yaml_unused None overridden_world c w' E).
  vm_compute. eauto.
Defined.

Lemma bind_Raise {A B} (m : M A) (k : A -> M B) w e w1 :
  m w = (Raise e, w1) -> bind m k w = (Raise e, w1).
Proof. unfold bind. now intros ->. Qed.

Lemma assoc_Some_In k l v : assoc k l = Some v -> In (k, v) l.
Proof.
  induction l as [| [k' v'] r IH]; simpl; [discriminate |].
  destruct (String.eqb_spec k k') as [-> |].
  - intros [= ->]. now left.
  - intros H. right. auto.
Qed.

Lemma collect_env_no_prefix env : forall acc,
  Forall (fun kv => startswith (fst kv) "UA_" = false) env ->
  collect_env env acc = Ok acc.
Proof.
  induction env as [| [name value] r IH]; intros acc H; [reflexivity |].
  inversion H as [| ? ? Hhd Htl]; subst. simpl in Hhd |- *.
  rewrite Hhd. now apply IH.
Qed.

(** C1. With no configuration file in the store and no variable named
    [UA_...] in the environment, [parse_config] does not return the
    defaults: the default [log_level] is the integer [logging.INFO], and
    calling [upper] on it raises [AttributeError]. *)
Theorem parse_config_defaults_only_raises
    (yaml_load : string -> yaml_result) (p : option string) (w : world)
    (Henv : Forall (fun kv => startswith (fst kv) "UA_" = false) (w_environ w))
    (Hlocal : absent w (os_path_join (w_cwd w) (os_path_basename (requested_path p))))
    (Hfile : absent w (requested_path p)) :
  fst (parse_config yaml_load p w) = Raise AttributeError.
Proof.
  destruct Hlocal as [Hc1 Hn1], Hfile as [Hc2 Hn2].
  unfold parse_config. fold (requested_path p).
  rewrite (bind_Ok _ _ w false w) by now apply os_path_exists_absent.
  assert (Hget : environ_get w "UA_CONFIG_FILE" = None).
  { unfold environ_get. destruct (assoc _ _) as [v |] eqn:E; [| reflexivity].
    apply assoc_Some_In in E. rewrite List.Forall_forall in Henv.
    apply Henv in E. discriminate E. }
  rewrite Hget.
  erewrite bind_Ok by reflexivity.
  erewrite bind_Ok by (apply os_path_exists_absent; [exact Hc2 | exact Hn2]).
  cbn [negb]. cbv beta iota.
  erewrite bind_Ok by reflexivity.
  erewrite bind_Ok by (unfold lift; rewrite collect_env_no_prefix by exact Henv; reflexivity).
  rewrite (left_id_L ∅ (∪)).
  erewrite bind_Ok by reflexivity.
  reflexivity.
Qed.

Lemma parse_config_defaults_only_raises_witness :
  fst (parse_config yaml_unused None bare_world) = Raise AttributeError.
Proof.
  apply parse_config_defaults_only_raises.
  - repeat constructor.
  - split; reflexivity.
  - split; reflexivity.
Defined.

(** *** No path raises [ConfigAbsentError] *)

Create HintDb quiet.

Lemma quiet_ret {A} (a : A) : quiet (ret a).
Proof. intros w. discriminate. Qed.

Lemma quiet_beyond {A} : quiet (@beyond A).
Proof. intros w. discriminate. Qed.

Lemma quiet_raise {A} e : e <> ConfigAbsentError -> quiet (@raise A e).
Proof. intros H w. simpl. congruence. Qed.

Lemma quiet_lift {A} (o : outcome A) : o <> Raise ConfigAbsentError -> quiet (lift o).
Proof. intros H w. exact H. Qed.

Lemma quiet_bind {A B} (m : M A) (k : A -> M B) :
  quiet m -> (forall a, quiet (k a)) -> quiet (bind m k).
Proof.
  intros Hm Hk w. unfold bind. specialize (Hm w).
  destruct (m w) as [[a | e |] w1]; simpl in *; [apply Hk | congruence | discriminate].
Qed.

Lemma quiet_log_debug logger message : quiet (log_debug logger message).
Proof. intros w. discriminate. Qed.

Lemma quiet_os_path_exists v : quiet (os_path_exists v).
Proof.
  destruct v; simpl;
    try (apply quiet_raise; discriminate); try apply quiet_beyond.
  destruct (canonical s); [intros w; discriminate | apply quiet_beyond].
Qed.

Lemma quiet_util_load_file v : quiet (util_load_file v).
Proof.
  destruct v; simpl;
    try (apply quiet_raise; discriminate); try apply quiet_beyond.
  destruct (canonical s); [| apply quiet_beyond].
  intros w. destruct (node_at (w_fs w) s) as [[| c] |]; discriminate.
Qed.

Lemma quiet_py_expanduser v : quiet (py_expanduser v).
Proof.
  destruct v; simpl; try (apply quiet_raise; discriminate).
  intros w. discriminate.
Qed.

#[local] Hint Resolve quiet_ret quiet_beyond quiet_log_debug
  quiet_os_path_exists quiet_util_load_file quiet_py_expanduser : quiet.

Lemma getitem_quiet d k : getitem d k <> Raise ConfigAbsentError.
Proof. unfold getitem. destruct (d !! k); discriminate. Qed.

Lemma py_upper_quiet v : py_upper v <> Raise ConfigAbsentError.
Proof. destruct v; simpl; try discriminate. destruct (str_upper s); discriminate. Qed.

Lemma of_yaml_quiet r : of_yaml r <> Raise ConfigAbsentError.
Proof. destruct r; discriminate. Qed.

Lemma update_element_quiet d item : update_element d item <> Raise ConfigAbsentError.
Proof.
  unfold update_element.
  repeat match goal with
         | |- match ?x with _ => _ end <> _ => destruct x
         end; discriminate.
Qed.

Lemma update_elements_quiet items : forall d,
  update_elements d items <> Raise ConfigAbsentError.
Proof.
  induction items as [| item r IH]; intros d; simpl; [discriminate |].
  pose proof (update_element_quiet d item) as H.
  destruct (update_element d item); simpl; [apply IH | exact H | discriminate].
Qed.

Lemma dict_update_quiet d other : dict_update d other <> Raise ConfigAbsentError.
Proof.
  destruct other; simpl; try discriminate; apply update_elements_quiet.
Qed.

Lemma collect_env_quiet env : forall acc,
  collect_env env acc <> Raise ConfigAbsentError.
Proof.
  induction env as [| [name value] r IH]; intros acc; simpl; [discriminate |].
  destruct (startswith name "UA_"); [| apply IH].
  destruct (str_lower name); [apply IH | discriminate].
Qed.

#[local] Hint Resolve getitem_quiet py_upper_quiet of_yaml_quiet dict_update_quiet
  collect_env_quiet : quiet.

(** C6. [ConfigAbsentError] is unreachable: whatever the requested path,
    the store, the environment and the YAML parser's answer, the outcome
    of [parse_config] is not this exception, although the docstring
    announces it for the case that no configuration file is found. *)
Theorem parse_config_never_config_absent
    (yaml_load : string -> yaml_result) (p : option string) (w : world) :
  fst (parse_config yaml_load p w) <> Raise ConfigAbsentError.
Proof.
  unfold parse_config.
  match goal with |- fst (?m w) <> _ => enough (H : quiet m) by apply H end.
  repeat first
    [ apply quiet_bind; [| intros ?]
    | apply quiet_lift
    | match goal with |- quiet (if ?b then _ else _) => destruct b end
    | solve [auto with quiet] ].
Qed.

(** *** The layers of the returned mapping *)

Lemma collect_env_other env k : forall acc r,
  collect_env env acc = Ok r ->
  Forall (fun kv => env_key (fst kv) <> Some k) env ->
  r !! k = acc !! k.
Proof.
  induction env as [| [name value] rest IH]; intros acc r H Hall; simpl in H.
  - now injection H as <-.
  - inversion Hall as [| ? ? Hhd Htl]; subst. simpl in Hhd.
    unfold env_key in Hhd.
    destruct (startswith name "UA_"); [| now apply IH].
    destruct (str_lower name) as [l |]; [| discriminate].
    simpl in Hhd. rewrite (IH _ _ H Htl).
    apply lookup_insert_ne. congruence.
Qed.

Lemma collect_env_last env1 name value env2 k : forall acc r,
  collect_env (env1 ++ (name, value) :: env2) acc = Ok r ->
  env_key name = Some k ->
  Forall (fun kv => env_key (fst kv) <> Some k) env2 ->
  r !! k = Some (PStr value).
Proof.
  induction env1 as [| [n v] rest IH]; intros acc r H Hk Hall; simpl in H.
  - unfold env_key in Hk.
    destruct (startswith name "UA_"); [| discriminate].
    destruct (str_lower name) as [l |]; [| discriminate].
    injection Hk as <-.
    rewrite (collect_env_other _ _ _ _ H Hall). apply lookup_insert_eq.
  - destruct (startswith n "UA_"); [| now apply (IH acc)].
    destruct (str_lower n); [| discriminate]. now apply (IH _ _ H).
Qed.

(** Every key of the returned mapping holds the merged value of the
    environment layer over the base, as the two final assignments leave it. *)
Lemma parse_config_lookup yaml_load p w cfg w' :
  parse_config yaml_load p w = (Ok cfg, w') ->
  exists base env_keys,
    file_layer yaml_load w base /\
    collect_env (w_environ w) ∅ = Ok env_keys /\
    forall k, cfg !! k = (env_keys ∪ base) !! k ≫= resolved w k.
Proof.
  intros H.
  apply parse_config_Ok_inv in H
    as (base & env_keys & lv & u & dd & Hlayer & Henv & Hlv & Hu & Hdd & ->).
  exists base, env_keys. split; [exact Hlayer |]. split; [exact Henv |].
  intros k. unfold resolved.
  rewrite lookup_insert_ne in Hdd by discriminate.
  destruct (String.eqb_spec k "log_level") as [-> | Hn1].
  - rewrite lookup_insert_ne by discriminate. rewrite lookup_insert_eq.
    rewrite Hlv. simpl. now rewrite Hu.
  - destruct (String.eqb_spec k "data_dir") as [-> | Hn2].
    + rewrite lookup_insert_eq, Hdd. reflexivity.
    + rewrite !lookup_insert_ne by congruence.
      destruct ((env_keys ∪ base) !! k); reflexivity.
Qed.

(** The three layers at work: the file sets [log_level] and adds
    [contract_url], the environment replaces [service_url], the defaults
    give the rest. *)
Example parse_config_three_layers :
  match parse_config (yaml_one configured_text configured_doc) None configured_world with
  | (Ok c, _) =>
      Some (c !! "log_level", c !! "contract_url", c !! "service_url",
            c !! "data_dir", c !! "sso_auth_url")
  | _ => None
  end
  = Some (Some (PStr "INFO"), Some (PStr "https://contracts.canonical.com"),
          Some (PStr "http://localhost:8080"),
          Some (PStr "/var/lib/ubuntu-advantage"),
          Some (PStr "https://login.ubuntu.com")).
Proof. vm_compute. reflexivity. Qed.

(** An empty configuration file is YAML for [None], which [dict.update]
    rejects. *)
Example parse_config_empty_file :
  fst (parse_config (fun _ => YamlValue PNone) None configured_world) = Raise TypeError.
Proof. vm_compute. reflexivity. Qed.

(** *** The document of the file over the defaults *)

Lemma set_all_app (d : gmap string pyval) l1 l2 :
  set_all d (l1 ++ l2)%list = set_all (set_all d l1) l2.
Proof. unfold set_all. apply fold_left_app. Qed.

Lemma set_all_other pairs : forall (d : gmap string pyval) k,
  ~ In k (map fst pairs) -> set_all d pairs !! k = d !! k.
Proof.
  unfold set_all. induction pairs as [| [k' v'] r IH]; intros d k H; simpl;
    [reflexivity |].
  rewrite IH by (intros Hin; apply H; now right).
  apply lookup_insert_ne. intros ->. apply H. now left.
Qed.

Lemma set_all_last (d : gmap string pyval) pre k v post :
  ~ In k (map fst post) -> set_all d (pre ++ (k, v) :: post)%list !! k = Some v.
Proof.
  intros H. rewrite set_all_app.
  change (set_all (set_all d pre) ((k, v) :: post))
    with (set_all (<[k := v]> (set_all d pre)) post).
  rewrite set_all_other by exact H. apply lookup_insert_eq.
Qed.

(** *** The file that is consulted *)

Lemma os_path_exists_Ok_inv q w b w' :
  os_path_exists (PStr q) w = (Ok b, w') ->
  canonical q = true /\ (b = true <-> node_at (w_fs w) q <> None).
Proof.
  simpl. destruct (canonical q); [| discriminate]. intros [= <- _].
  split; [reflexivity |]. rewrite bool_decide_eq_true.
  split; [intros [n ->]; discriminate |].
  destruct (node_at (w_fs w) q); [eauto | congruence].
Qed.

(** The shape of every configuration that [parse_config] returns, with the
    file it was read from. *)
Lemma parse_config_Ok_source yaml_load p w cfg w' :
  parse_config yaml_load p w = (Ok cfg, w') ->
  exists b base env_keys,
    os_path_exists
      (PStr (os_path_join (w_cwd w) (os_path_basename (requested_path p)))) w
      = (Ok b, w) /\
    canonical (chosen_config_file w p b) = true /\
    (node_at (w_fs w) (chosen_config_file w p b) = None /\ base = CONFIG_DEFAULTS \/
     exists content doc,
       node_at (w_fs w) (chosen_config_file w p b) = Some (File content) /\
       yaml_load content = YamlValue doc /\
       dict_update CONFIG_DEFAULTS doc = Ok base) /\
    collect_env (w_environ w) ∅ = Ok env_keys /\
    (exists lv, (env_keys ∪ base) !! "log_level" = Some (PStr lv)) /\
    forall k, cfg !! k = (env_keys ∪ base) !! k ≫= resolved w k.
Proof.
  intros Hrun.
  unfold parse_config in Hrun. fold (requested_path p) in Hrun.
  apply bind_Ok_inv in Hrun as (b & w1 & H1 & H).
  pose proof (os_path_exists_world _ _ _ _ H1) as ->.
  fold (chosen_config_file w p b) in H.
  apply bind_Ok_inv in H as ([] & w2 & H2 & H).
  unfold log_debug in H2. injection H2 as <-.
  apply bind_Ok_inv in H as (found & w3 & H3 & H).
  pose proof (os_path_exists_world _ _ _ _ H3) as ->.
  apply os_path_exists_Ok_inv in H3 as [Hcanon Hfound]. simpl in Hfound.
  apply bind_Ok_inv in H as (base & w4 & Hbase & H).
  apply bind_Ok_inv in H as (env_keys & w5 & Henv & H).
  apply lift_Ok_inv in Henv as [Henv ->].
  apply bind_Ok_inv in H as (lv0 & w6 & Hlv & H).
  apply lift_Ok_inv in Hlv as [Hlv ->].
  apply bind_Ok_inv in H as (lv1 & w7 & Hup & H).
  apply lift_Ok_inv in Hup as [Hup ->].
  apply bind_Ok_inv in H as (dd0 & w8 & Hdd & H).
  apply lift_Ok_inv in Hdd as [Hdd ->].
  apply bind_Ok_inv in H as (dd1 & w9 & Hex & H).
  unfold ret in H. injection H as <- <-.
  exists b, base, env_keys.
  split; [exact H1 |]. split; [exact Hcanon |].
  match type of Hbase with _ ?wl = _ => set (w_logged := wl) in * end.
  assert (Hlayer :
    (node_at (w_fs w) (chosen_config_file w p b) = None /\ base = CONFIG_DEFAULTS \/
     exists content doc,
       node_at (w_fs w) (chosen_config_file w p b) = Some (File content) /\
       yaml_load content = YamlValue doc /\
       dict_update CONFIG_DEFAULTS doc = Ok base) /\ w4 = w_logged).
  { destruct found.
    - apply bind_Ok_inv in Hbase as (content & wa & Hload & Hbase).
      apply util_load_file_inv in Hload as (-> & path & Epath & Hnode).
      injection Epath as <-. simpl in Hnode.
      apply bind_Ok_inv in Hbase as (doc & wb & Hdoc & Hbase).
      apply lift_Ok_inv in Hdoc as [Hdoc ->].
      apply lift_Ok_inv in Hbase as [Hbase ->].
      split; [| reflexivity].
      right. exists content, doc. split; [exact Hnode |]. split; [| exact Hbase].
      destruct (yaml_load content); simpl in Hdoc; congruence.
    - unfold ret in Hbase. injection Hbase as <- <-. split; [| reflexivity].
      left. split; [| reflexivity].
      destruct (node_at (w_fs w) (chosen_config_file w p b)) eqn:En; [| reflexivity].
      assert (false = true) by (apply Hfound; discriminate). discriminate. }
  destruct Hlayer as [Hlayer ->].
  split; [exact Hlayer |]. split; [exact Henv |].
  unfold getitem in Hlv.
  destruct ((env_keys ∪ base) !! "log_level") as [lvv |] eqn:Elv; [| discriminate].
  injection Hlv as ->.
  destruct lv0 as [| | | lv | |]; simpl in Hup; try discriminate.
  destruct (str_upper lv) as [u |] eqn:Eu; [| discriminate]. injection Hup as <-.
  split; [now exists lv |].
  unfold getitem in Hdd.
  destruct (<["log_level" := PStr u]> (env_keys ∪ base) !! "data_dir")
    as [ddv |] eqn:Edd; [| discriminate].
  injection Hdd as ->.
  destruct dd0 as [| | | dd | |]; simpl in Hex; unfold raise in Hex; try discriminate.
  injection Hex as <- _.
  intros k. unfold resolved.
  rewrite lookup_insert_ne in Edd by discriminate.
  destruct (String.eqb_spec k "log_level") as [-> | Hn1].
  - rewrite lookup_insert_ne by discriminate. rewrite lookup_insert_eq.
    rewrite Elv. simpl. now rewrite Eu.
  - destruct (String.eqb_spec k "data_dir") as [-> | Hn2].
    + rewrite lookup_insert_eq, Edd. reflexivity.
    + rewrite !lookup_insert_ne by congruence.
      destruct ((env_keys ∪ base) !! k); reflexivity.
Qed.

Lemma unset_lookup env_keys w k :
  collect_env (w_environ w) ∅ = Ok env_keys -> unset_in_env w k ->
  env_keys !! k = None.
Proof.
  intros Henv Hun. rewrite (collect_env_other _ _ _ _ Henv Hun). apply lookup_empty.
Qed.

(** C3, as the code has it.  When [parse_config] returns, a variable
    [UA_<NAME>] of the environment decides the key [<name>] of the result,
    whatever the file and the defaults say, provided no later variable of
    the environment gives the same key: the result holds the variable's
    value, raw for every key but two, uppercased for [log_level] and
    user-expanded for [data_dir].  A key that no variable gives comes from
    the base under the environment, treated the same way.  The base is
    fixed by the one file that the resolver settles on (the file named by
    [UA_CONFIG_FILE], else the file of the requested name in the working
    directory, else the requested path): the defaults alone when that file
    is not there, and otherwise the defaults updated with its document;
    for a document that is a mapping, each key of the document holds the
    value that the document gives it last, and every other key its
    default. *)
Theorem parse_config_layers
    (yaml_load : string -> yaml_result) (p : option string) (w : world)
    (cfg : gmap string pyval) (w' : world)
    (Hrun : parse_config yaml_load p w = (Ok cfg, w')) :
  (forall env1 name value env2 k,
     w_environ w = (env1 ++ (name, value) :: env2)%list ->
     env_key name = Some k ->
     Forall (fun kv => env_key (fst kv) <> Some k) env2 ->
     cfg !! k = resolved w k (PStr value)) /\
  exists base,
    file_layer yaml_load w base /\
    (let local_cfg := os_path_join (w_cwd w) (os_path_basename (requested_path p)) in
     let path :=
       chosen_config_file w p (bool_decide (is_Some (node_at (w_fs w) local_cfg))) in
     (node_at (w_fs w) path = None /\ base = CONFIG_DEFAULTS \/
      exists content doc,
        node_at (w_fs w) path = Some (File content) /\
        yaml_load content = YamlValue doc /\
        dict_update CONFIG_DEFAULTS doc = Ok base) /\
     (forall content kvs,
        node_at (w_fs w) path = Some (File content) ->
        yaml_load content = YamlValue (PDict kvs) ->
        (forall pre k v post,
           kvs = (pre ++ (k, v) :: post)%list -> ~ In k (map fst post) ->
           base !! k = Some v) /\
        (forall k, ~ In k (map fst kvs) -> base !! k = CONFIG_DEFAULTS !! k))) /\
    forall k,
      Forall (fun kv => env_key (fst kv) <> Some k) (w_environ w) ->
      cfg !! k = base !! k ≫= resolved w k.
Proof.
  apply parse_config_Ok_source in Hrun
    as (b & base & env_keys & Hlocal & _ & Hlayer & Henv & _ & Hcfg).
  assert (Hb : b = bool_decide
                     (is_Some (node_at (w_fs w)
                        (os_path_join (w_cwd w) (os_path_basename (requested_path p)))))).
  { simpl in Hlocal. destruct (canonical _); [| discriminate Hlocal].
    now injection Hlocal as <-. }
  rewrite Hb in Hlayer. clear Hlocal Hb b.
  split.
  - intros env1 name value env2 k Hsplit Hk Hlast.
    rewrite Hsplit in Henv.
    pose proof (collect_env_last _ _ _ _ _ _ _ Henv Hk Hlast) as Hin.
    rewrite Hcfg. erewrite lookup_union_Some_l by exact Hin. reflexivity.
  - exists base. split; [| split; [split |]].
    + destruct Hlayer as [[_ ->] | (content & doc & Hnode & Hdoc & Hup)];
        [now left | right; do 3 eexists; repeat split; eassumption].
    + exact Hlayer.
    + intros content kvs Hnode Hdoc.
      destruct Hlayer as [[Hnone _] | (content' & doc & Hnode' & Hdoc' & Hup)];
        [congruence |].
      rewrite Hnode in Hnode'. injection Hnode' as <-.
      rewrite Hdoc in Hdoc'. injection Hdoc' as <-.
      simpl in Hup. injection Hup as <-. split.
      * intros pre k v post -> Hlast. now apply set_all_last.
      * intros k Hk. now apply set_all_other.
    + intros k Hnone. rewrite Hcfg.
      pose proof (collect_env_other _ _ _ _ Henv Hnone) as Hout.
      rewrite lookup_empty in Hout. now rewrite lookup_union_r.
Qed.

Lemma parse_config_layers_witness :
  exists cfg w',
    parse_config (yaml_one layered_text layered_doc) None layered_world = (Ok cfg, w') /\
    cfg !! "log_level" = Some (PStr "DEBUG") /\
    cfg !! "service_url" = Some (PStr "http://localhost:8080") /\
    cfg !! "sso_auth_url" = Some (PStr BASE_AUTH_URL).
Proof.
  assert (Hrun : is_ok (fst (parse_config (yaml_one layered_text layered_doc) None
                               layered_world)) = true)
    by (vm_compute; reflexivity).
  destruct (parse_config (yaml_one layered_text layered_doc) None layered_world)
    as [[c | e |] w'] eqn:E; try discriminate Hrun.
  exists c, w'. split; [reflexivity |].
  destruct (parse_config_layers _ None layered_world c w' E)
    as (Henv & base & _ & [_ Hfile] & Hbase).
  destruct (Hfile layered_text
              [("log_level", PStr "info");
               ("service_url", PStr "http://localhost:8080")]
              eq_refl eq_refl) as [Hdoc Hdefault].
  split; [| split].
  - apply (Henv [("HOME", "/root")] "UA_LOG_LEVEL" "debug" [] "log_level"
             eq_refl eq_refl).
    constructor.
  - rewrite Hbase by (repeat constructor; discriminate).
    rewrite (Hdoc [("log_level", PStr "info")] "service_url"
               (PStr "http://localhost:8080") [] eq_refl) by (simpl; tauto).
    reflexivity.
  - rewrite Hbase by (repeat constructor; discriminate).
    rewrite Hdefault by (simpl; intros [H | [H | []]]; discriminate H).
    reflexivity.
Defined.

(** C3, as stated, fails: in a run that returns, the variable
    [UA_LOG_LEVEL=debug] does not leave its raw value under [log_level],
    [UA_DATA_DIR=~/ua] does not leave its raw value under [data_dir], and
    [UA_FOO=1] does not decide [foo] when [UA_foo=2] follows it. *)
Lemma parse_config_env_not_raw :
  exists cfg w',
    parse_config yaml_unused None overridden_world = (Ok cfg, w') /\
    In ("UA_LOG_LEVEL", "debug") (w_environ overridden_world) /\
    env_key "UA_LOG_LEVEL" = Some "log_level" /\
    cfg !! "log_level" <> Some (PStr "debug") /\
    In ("UA_DATA_DIR", "~/ua") (w_environ overridden_world) /\
    env_key "UA_DATA_DIR" = Some "data_dir" /\
    cfg !! "data_dir" <> Some (PStr "~/ua") /\
    In ("UA_FOO", "1") (w_environ overridden_world) /\
    env_key "UA_FOO" = Some "foo" /\
    cfg !! "foo" <> Some (PStr "1").
Proof.
  assert (Hrun :
    match parse_config yaml_unused None overridden_world with
    | (Ok c, _) => Some (c !! "log_level", c !! "data_dir", c !! "foo")
    | _ => None
    end = Some (Some (PStr "DEBUG"), Some (PStr "/root/ua"), Some (PStr "2")))
    by (vm_compute; reflexivity).
  destruct (parse_config yaml_unused None overridden_world) as [[c | e |] w'] eqn:E;
    try discriminate Hrun.
  injection Hrun as H1 H2 H3.
  exists c, w'. split; [reflexivity |].
  rewrite H1, H2, H3.
  repeat split; try reflexivity; try (simpl; tauto); discriminate.
Qed.

(** ** The json round trip *)

Module JsonFacts.
Import Json.

Example dumps_sample :
  encode (PList [PInt 1; PInt (-20); PBool true; PNone; PList []; PDict []])
  = "[1, -20, true, null, [], {}]".
Proof. reflexivity. Qed.

Example loads_samples :
  map loads [" [1 , 2 ] "; "01"; "-0"; "1.5"; "[1,]"; "nul"; "[[], {}]"]
  = [Ok (PList [PInt 1; PInt 2]); Raise ValueError; Ok (PInt 0); Beyond;
     Raise ValueError; Raise ValueError; Ok (PList [PList []; PDict []])].
Proof. vm_compute. reflexivity. Qed.

Lemma pyval_ind' (P : pyval -> Prop) :
  P PNone -> (forall b, P (PBool b)) -> (forall z, P (PInt z)) ->
  (forall s, P (PStr s)) ->
  (forall l, Forall P l -> P (PList l)) ->
  (forall kvs, Forall (fun kv => P (snd kv)) kvs -> P (PDict kvs)) ->
  forall v, P v.
Proof.
  intros Hn Hb Hi Hs Hl Hd. fix IH 1. intros [| b | z | s | l | kvs].
  - exact Hn.
  - apply Hb.
  - apply Hi.
  - apply Hs.
  - apply Hl. induction l as [| x r IHr]; constructor; [apply IH | exact IHr].
  - apply Hd. induction kvs as [| [k x] r IHr]; constructor; [apply IH | exact IHr].
Qed.

Lemma append_cons c (a b : string) : String c a ++ b = String c (a ++ b).
Proof. reflexivity. Qed.

Lemma append_assoc (a b c : string) : (a ++ b) ++ c = a ++ (b ++ c).
Proof.
  induction a as [| x a IH]; [reflexivity |].
  rewrite !append_cons. f_equal. exact IH.
Qed.

Lemma append_nil_r (a : string) : a ++ "" = a.
Proof.
  induction a as [| x a IH]; [reflexivity |].
  rewrite append_cons. f_equal. exact IH.
Qed.

Lemma length_append (a b : string) :
  String.length (a ++ b) = String.length a + String.length b.
Proof.
  induction a as [| c a IH]; [reflexivity |].
  rewrite append_cons. simpl. now rewrite IH.
Qed.

Lemma scanstring_escape_char c t :
  scanstring SNormal (escape_char c ++ t) = pmap (String c) (scanstring SNormal t).
Proof. destruct c as [[] [] [] [] [] [] [] []]; reflexivity. Qed.

Lemma scanstring_escape s t :
  scanstring SNormal (escape s ++ String dquote t) = Parsed s t.
Proof.
  induction s as [| c s IH]; [reflexivity |].
  change (escape (String c s)) with (escape_char c ++ escape s).
  now rewrite append_assoc, scanstring_escape_char, IH.
Qed.

(** *** Integers *)

Lemma unorm_shape d :
  Decimal.unorm d = Decimal.D0 Decimal.Nil \/ first_nonzero (Decimal.unorm d).
Proof. induction d; simpl; auto. Qed.

Lemma to_uint_shape n : n <> 0%N -> first_nonzero (N.to_uint n).
Proof.
  intros Hn.
  assert (Hnorm : Decimal.unorm (N.to_uint n) = N.to_uint n).
  { rewrite <- (DecimalN.Unsigned.to_of (N.to_uint n)).
    now rewrite DecimalN.Unsigned.of_to. }
  destruct (unorm_shape (N.to_uint n)) as [H | H]; rewrite Hnorm in H; [| exact H].
  exfalso. apply Hn. rewrite <- (DecimalN.Unsigned.of_to n), H. reflexivity.
Qed.

Lemma span_digits_stop rest :
  starts_with_digit rest = false -> span_digits rest = ("", rest).
Proof. destruct rest as [| c r]; simpl; [reflexivity |]. now intros ->. Qed.

Lemma span_digits_uint d rest :
  starts_with_digit rest = false ->
  span_digits (NilEmpty.string_of_uint d ++ rest) = (NilEmpty.string_of_uint d, rest).
Proof.
  intros H. induction d; simpl NilEmpty.string_of_uint;
    [now apply span_digits_stop | ..];
    rewrite append_cons; simpl; now rewrite IHd.
Qed.

Lemma digits_head n :
  exists c t, digits n = String c t /\ is_digit c = true /\
              (n <> 0%N -> c <> "0"%char).
Proof.
  unfold digits. destruct (N.eq_dec n 0%N) as [-> | Hn].
  - exists "0"%char, "". repeat split. congruence.
  - pose proof (to_uint_shape n Hn) as H.
    destruct (N.to_uint n); simpl in H; try contradiction;
      simpl; eexists _, _; (split; [reflexivity |]); split;
      try reflexivity; intros _; discriminate.
Qed.

Lemma scan_int_part_nonzero c t :
  is_digit c = true -> c <> "0"%char ->
  scan_int_part (String c t) =
  (let '(ds, rest) := span_digits (String c t) in
   match NilEmpty.uint_of_string ds with
   | Some d => Some (N.of_uint d, rest)
   | None => None
   end).
Proof.
  intros Hd Hz.
  destruct c as [[] [] [] [] [] [] [] []];
    try (vm_compute in Hd; discriminate Hd);
    try (exfalso; apply Hz; reflexivity); reflexivity.
Qed.

Lemma scan_int_part_digits n rest :
  starts_with_digit rest = false ->
  scan_int_part (digits n ++ rest) = Some (n, rest).
Proof.
  intros Hrest. destruct (N.eq_dec n 0%N) as [-> | Hn]; [reflexivity |].
  destruct (digits_head n) as (c & t & E & Hd & Hz).
  rewrite E, append_cons, scan_int_part_nonzero by auto.
  rewrite <- append_cons, <- E. unfold digits.
  rewrite span_digits_uint by exact Hrest.
  now rewrite NilEmpty.usu, DecimalN.Unsigned.of_to.
Qed.

Lemma delimited_no_digit rest : delimited rest = true -> starts_with_digit rest = false.
Proof.
  destruct rest as [| c r]; [reflexivity |].
  destruct c as [[] [] [] [] [] [] [] []]; simpl; intros H;
    try reflexivity; discriminate H.
Qed.

Lemma delimited_no_float rest : delimited rest = true -> float_follows rest = false.
Proof.
  destruct rest as [| c r]; [reflexivity |].
  destruct c as [[] [] [] [] [] [] [] []]; simpl; intros H;
    try reflexivity; discriminate H.
Qed.

Lemma scan_number_plain c t :
  is_digit c = true ->
  scan_number (String c t) =
  match scan_int_part (String c t) with
  | Some (n, rest) =>
      if float_follows rest then Unsupported
      else if within_limit (String.length (String c t) - String.length rest)
      then Parsed (PInt (Z.of_N n)) rest
      else Unsupported
  | None => Invalid
  end.
Proof.
  intros Hd.
  destruct c as [[] [] [] [] [] [] [] []];
    try (vm_compute in Hd; discriminate Hd); reflexivity.
Qed.

Lemma digit_count (ds rest : string) :
  String.length (ds ++ rest) - String.length rest = String.length ds.
Proof. rewrite length_append. lia. Qed.

Lemma scan_number_int z rest :
  within_limit (String.length (digits (Z.abs_N z))) = true ->
  delimited rest = true ->
  scan_number (int_repr z ++ rest) = Parsed (PInt z) rest.
Proof.
  intros Hlim Hrest. unfold int_repr.
  pose proof (delimited_no_digit _ Hrest) as Hnd.
  pose proof (delimited_no_float _ Hrest) as Hnf.
  destruct (Z.ltb_spec z 0) as [Hneg | Hpos].
  - rewrite append_cons. unfold scan_number.
    rewrite scan_int_part_digits by exact Hnd. rewrite Hnf.
    rewrite digit_count, Hlim.
    do 2 f_equal. rewrite N2Z.inj_abs_N. lia.
  - destruct (digits_head (Z.abs_N z)) as (c & t & E & Hd & _).
    rewrite E, append_cons, scan_number_plain by exact Hd.
    rewrite <- append_cons, <- E.
    rewrite scan_int_part_digits by exact Hnd. rewrite Hnf.
    rewrite digit_count, Hlim.
    do 2 f_equal. rewrite N2Z.inj_abs_N. lia.
Qed.

(** *** Values *)

Lemma dumps_head v : exists c t, encode v = String c t /\ value_start c = true.
Proof.
  destruct v as [| [] | z | s | l | kvs]; simpl;
    try (eexists _, _; split; reflexivity).
  unfold int_repr. destruct (z <? 0)%Z.
  - eexists _, _; split; reflexivity.
  - destruct (digits_head (Z.abs_N z)) as (c & t & E & Hd & _).
    exists c, t. split; [exact E |]. unfold value_start. now rewrite Hd.
Qed.

Lemma value_start_not_ws c : value_start c = true -> is_ws c = false.
Proof.
  intros H. destruct c as [[] [] [] [] [] [] [] []];
    try (vm_compute in H; discriminate H); reflexivity.
Qed.

Lemma skip_ws_value c t : value_start c = true -> skip_ws (String c t) = String c t.
Proof.
  intros H. destruct c as [[] [] [] [] [] [] [] []];
    try (vm_compute in H; discriminate H); reflexivity.
Qed.

Lemma scan_once_number f c t :
  is_digit c = true \/ c = "-"%char ->
  scan_once (S f) (String c t) = scan_number (String c t).
Proof.
  intros [H | ->]; [| reflexivity].
  destruct c as [[] [] [] [] [] [] [] []];
    try (vm_compute in H; discriminate H); reflexivity.
Qed.

Lemma scan_once_array f c t :
  value_start c = true ->
  scan_once (S f) (String "[" (String c t)) = pmap PList (scan_items f (String c t)).
Proof.
  intros H. destruct c as [[] [] [] [] [] [] [] []];
    try (vm_compute in H; discriminate H); reflexivity.
Qed.

Lemma scan_items_last g s x rest :
  scan_once g s = Parsed x (String "]" rest) ->
  scan_items (S g) s = Parsed [x] rest.
Proof. intros H. simpl. now rewrite H. Qed.

Lemma scan_items_more g s x c t :
  value_start c = true ->
  scan_once g s = Parsed x (String "," (String " " (String c t))) ->
  scan_items (S g) s = pmap (cons x) (scan_items g (String c t)).
Proof.
  intros Hc H. simpl. rewrite H. simpl.
  now rewrite (value_start_not_ws c Hc).
Qed.

Lemma scan_members_last g s k x rest :
  scan_once g (encode x ++ String "}" rest) = Parsed x (String "}" rest) ->
  s = escape k ++ String dquote (String ":" (String " " (encode x ++ String "}" rest))) ->
  scan_members (S g) s = Parsed [(k, x)] rest.
Proof.
  intros H ->. simpl. rewrite scanstring_escape. simpl.
  destruct (dumps_head x) as (c & t & E & Hc).
  rewrite E, append_cons in *. simpl.
  rewrite (value_start_not_ws c Hc). now rewrite H.
Qed.

Lemma scan_members_more g s k x more :
  scan_once g (encode x ++ String "," (String " " (String dquote more)))
    = Parsed x (String "," (String " " (String dquote more))) ->
  s = escape k ++ String dquote (String ":" (String " "
        (encode x ++ String "," (String " " (String dquote more))))) ->
  scan_members (S g) s = pmap (cons (k, x)) (scan_members g more).
Proof.
  intros H ->. simpl. rewrite scanstring_escape. simpl.
  destruct (dumps_head x) as (c & t & E & Hc).
  rewrite E, append_cons in *. simpl.
  rewrite (value_start_not_ws c Hc). now rewrite H.
Qed.

Lemma append_nil_l (s : string) : "" ++ s = s.
Proof. reflexivity. Qed.

Ltac norm_append :=
  repeat (rewrite append_assoc || rewrite append_cons || rewrite append_nil_l).

Lemma distinct_before l1 k l2 :
  distinct (l1 ++ k :: l2) = true -> existsb (String.eqb k) l1 = false.
Proof.
  induction l1 as [| a l1 IH]; simpl; [reflexivity |].
  intros H. apply andb_prop in H as [Ha Hd].
  rewrite (IH Hd), orb_false_r.
  apply negb_true_iff in Ha. rewrite existsb_app in Ha.
  apply orb_false_elim in Ha as [_ Ha]. simpl in Ha.
  apply orb_false_elim in Ha as [Ha _]. now rewrite String.eqb_sym.
Qed.

Lemma dict_set_fresh acc k v :
  existsb (String.eqb k) (map fst acc) = false ->
  dict_set acc k v = (acc ++ [(k, v)])%list.
Proof.
  induction acc as [| [k' v'] r IH]; simpl; [reflexivity |].
  intros H. apply orb_false_elim in H as [H1 H2].
  rewrite H1. f_equal. now apply IH.
Qed.

Lemma dict_of_pairs_from kvs : forall acc,
  distinct (map fst (acc ++ kvs)%list) = true ->
  fold_left (fun d kv => dict_set d (fst kv) (snd kv)) kvs acc = (acc ++ kvs)%list.
Proof.
  induction kvs as [| [k v] r IH]; intros acc H; simpl.
  - now rewrite app_nil_r.
  - rewrite dict_set_fresh.
    + rewrite IH; rewrite <- app_assoc; [reflexivity | exact H].
    + rewrite map_app in H. simpl in H. now apply distinct_before in H.
Qed.

Lemma dict_of_pairs_distinct kvs :
  distinct (map fst kvs) = true -> dict_of_pairs kvs = kvs.
Proof. intros H. unfold dict_of_pairs. now rewrite dict_of_pairs_from. Qed.

Lemma startswith_nil s : startswith s "" = true.
Proof. destruct s; reflexivity. Qed.

Lemma concat_sep_cons2 a b r :
  concat_sep (a :: b :: r) = a ++ ", " ++ concat_sep (b :: r).
Proof. reflexivity. Qed.

Lemma items_head y r s :
  exists c t, concat_sep (map encode (y :: r)) ++ s = String c t /\ value_start c = true.
Proof.
  destruct (dumps_head y) as (c & t & E & Hc).
  destruct r as [| z r].
  - simpl. rewrite E, append_cons. eauto.
  - change (map encode (y :: z :: r)) with (encode y :: encode z :: map encode r).
    rewrite concat_sep_cons2, E. norm_append. eauto.
Qed.

Lemma scan_items_dumps l :
  Forall reads_back l ->
  l <> [] -> forallb unique_keys l = true -> forallb limited l = true ->
  forall fuel rest,
    list_sum (map (fun x => S (weight x)) l) <= fuel ->
    scan_items fuel (concat_sep (map encode l) ++ String "]" rest) = Parsed l rest.
Proof.
  induction l as [| x r IH]; intros Hall Hne Huk Hlim fuel rest Hfuel; [congruence |].
  inversion Hall as [| ? ? Hx Hr]; subst.
  simpl in Huk. apply andb_prop in Huk as [Hukx Hukr].
  simpl in Hlim. apply andb_prop in Hlim as [Hlimx Hlimr].
  simpl in Hfuel. destruct fuel as [| g]; [lia |].
  destruct r as [| y r].
  - simpl. apply scan_items_last.
    apply Hx; [assumption | assumption | lia | reflexivity].
  - change (map encode (x :: y :: r)) with (encode x :: map encode (y :: r)).
    change (concat_sep (encode x :: map encode (y :: r)))
      with (encode x ++ ", " ++ concat_sep (map encode (y :: r))).
    destruct (items_head y r (String "]" rest)) as (c & t & E & Hc).
    norm_append. rewrite E.
    erewrite scan_items_more;
      [| exact Hc | apply Hx; [assumption | assumption | simpl in *; lia | reflexivity]].
    rewrite <- E, IH;
      [reflexivity | assumption | discriminate | assumption | assumption |].
    simpl in *. lia.
Qed.

Lemma scan_members_dumps kvs :
  Forall (fun kv => reads_back (snd kv)) kvs ->
  kvs <> [] -> forallb (fun kv => unique_keys (snd kv)) kvs = true ->
  forallb (fun kv => limited (snd kv)) kvs = true ->
  forall fuel rest,
    list_sum (map (fun kv => S (weight (snd kv))) kvs) <= fuel ->
    exists body,
      concat_sep (map member_text kvs) ++ String "}" rest = String dquote body /\
      scan_members fuel body = Parsed kvs rest.
Proof.
  induction kvs as [| [k x] r IH]; intros Hall Hne Huk Hlim fuel rest Hfuel; [congruence |].
  inversion Hall as [| ? ? Hx Hr]; subst. simpl in Hx.
  simpl in Huk. apply andb_prop in Huk as [Hukx Hukr].
  simpl in Hlim. apply andb_prop in Hlim as [Hlimx Hlimr].
  simpl in Hfuel. destruct fuel as [| g]; [lia |].
  destruct r as [| kv2 r].
  - eexists. split.
    + simpl. unfold member_text, dumps_string. simpl fst. simpl snd.
      norm_append. reflexivity.
    + eapply scan_members_last; [| reflexivity].
      apply Hx; [assumption | assumption | lia | reflexivity].
  - destruct (IH Hr ltac:(discriminate) Hukr Hlimr g rest ltac:(simpl in *; lia))
      as (body' & Ebody & Hscan).
    eexists. split.
    + change (map member_text ((k, x) :: kv2 :: r))
        with (member_text (k, x) :: map member_text (kv2 :: r)).
      change (concat_sep (member_text (k, x) :: map member_text (kv2 :: r)))
        with (member_text (k, x) ++ ", " ++ concat_sep (map member_text (kv2 :: r))).
      unfold member_text at 1, dumps_string. simpl fst. simpl snd.
      norm_append. rewrite Ebody. reflexivity.
    + erewrite scan_members_more; [| | reflexivity].
      * now rewrite Hscan.
      * apply Hx; [assumption | assumption | simpl in *; lia | reflexivity].
Qed.

Lemma dumps_int_head z :
  exists c t, int_repr z = String c t /\ (is_digit c = true \/ c = "-"%char).
Proof.
  unfold int_repr. destruct (z <? 0)%Z; [eauto |].
  destruct (digits_head (Z.abs_N z)) as (c & t & E & Hd & _). eauto.
Qed.

(** The decoder reads the encoding of every value back, whatever
    delimiter follows it. *)
Lemma scan_once_dumps v : reads_back v.
Proof.
  induction v as [| b | z | s | l IH | kvs IH] using pyval_ind';
    intros Huk Hlim fuel rest Hfuel Hrest;
    (destruct fuel as [| f]; [simpl in Hfuel; lia |]).
  - simpl encode. norm_append. simpl. now rewrite startswith_nil.
  - destruct b; simpl encode; norm_append; simpl; now rewrite startswith_nil.
  - destruct (dumps_int_head z) as (c & t & E & Hc).
    simpl encode. rewrite E, append_cons, scan_once_number by exact Hc.
    rewrite <- append_cons, <- E. now apply scan_number_int.
  - simpl encode. unfold dumps_string. norm_append.
    change (scan_once (S f) (String dquote (escape s ++ String dquote rest)))
      with (pmap PStr (scanstring SNormal (escape s ++ String dquote rest))).
    now rewrite scanstring_escape.
  - destruct l as [| x r]; [reflexivity |].
    simpl in Huk, Hfuel.
    change (encode (PList (x :: r)))
      with ("[" ++ concat_sep (map encode (x :: r)) ++ "]").
    norm_append.
    destruct (items_head x r (String "]" rest)) as (c & t & E & Hc).
    rewrite E, scan_once_array by exact Hc.
    rewrite <- E, scan_items_dumps;
      [reflexivity | assumption | discriminate | exact Huk | exact Hlim |].
    simpl. lia.
  - destruct kvs as [| kv r]; [reflexivity |].
    simpl in Huk. apply andb_prop in Huk as [Hd Huk].
    change (encode (PDict (kv :: r)))
      with ("{" ++ concat_sep (map member_text (kv :: r)) ++ "}").
    norm_append.
    destruct (scan_members_dumps (kv :: r) IH ltac:(discriminate) Huk Hlim f rest)
      as (body & Ebody & Hscan); [simpl in *; lia |].
    rewrite Ebody.
    change (scan_once (S f) (String "{" (String dquote body)))
      with (pmap (fun ps => PDict (dict_of_pairs ps)) (scan_members f body)).
    rewrite Hscan. simpl. now rewrite dict_of_pairs_distinct.
Qed.

(** *** Enough fuel *)

Lemma length_concat_sep pieces :
  list_sum (map (fun p => S (String.length p)) pieces)
    <= S (String.length (concat_sep pieces)).
Proof.
  induction pieces as [| a [| b r] IH]; simpl in *; [lia | lia |].
  rewrite !length_append. simpl in *. lia.
Qed.

Lemma list_sum_le {A} (f g : A -> nat) l :
  Forall (fun x => f x <= g x) l ->
  list_sum (map f l) <= list_sum (map g l).
Proof. induction 1; simpl; lia. Qed.

Lemma weight_le_length v : weight v <= String.length (encode v).
Proof.
  induction v as [| b | z | s | l IH | kvs IH] using pyval_ind'.
  - simpl. lia.
  - destruct b; simpl; lia.
  - destruct (dumps_int_head z) as (c & t & E & _). simpl. rewrite E. simpl. lia.
  - simpl. lia.
  - change (encode (PList l)) with ("[" ++ concat_sep (map encode l) ++ "]").
    norm_append. simpl. rewrite length_append. simpl.
    pose proof (length_concat_sep (map encode l)) as H.
    rewrite map_map in H.
    pose proof (list_sum_le (fun x => S (weight x))
                  (fun x => S (String.length (encode x))) l) as H2.
    assert (Forall (fun x => S (weight x) <= S (String.length (encode x))) l)
      by (eapply Forall_impl; [exact IH | simpl; intros; lia]).
    specialize (H2 H0). lia.
  - change (encode (PDict kvs)) with ("{" ++ concat_sep (map member_text kvs) ++ "}").
    norm_append. simpl. rewrite length_append. simpl.
    pose proof (length_concat_sep (map member_text kvs)) as H.
    rewrite map_map in H.
    pose proof (list_sum_le (fun kv => S (weight (snd kv)))
                  (fun kv => S (String.length (member_text kv))) kvs) as H2.
    assert (Forall (fun kv => S (weight (snd kv)) <= S (String.length (member_text kv))) kvs).
    { eapply Forall_impl; [exact IH |]. simpl. intros kv Hkv.
      unfold member_text. rewrite !length_append. lia. }
    specialize (H2 H0). lia.
Qed.

(** The decoder reads the text of every value with distinct keys and
    integers within the limit. *)
Lemma loads_encode v :
  unique_keys v = true -> limited v = true -> loads (encode v) = Ok v.
Proof.
  intros Huk Hlim. unfold loads.
  destruct (dumps_head v) as (c & t & E & Hc).
  assert (Hskip : skip_ws (encode v) = encode v)
    by (rewrite E; now apply skip_ws_value).
  rewrite Hskip. rewrite <- (append_nil_r (encode v)) at 2.
  rewrite scan_once_dumps; [reflexivity | exact Huk | exact Hlim | | reflexivity].
  pose proof (weight_le_length v). lia.
Qed.

Lemma dumps_nonempty v : encode v <> "".
Proof. destruct (dumps_head v) as (c & t & E & _). now rewrite E. Qed.

(** *** The encoder and its limit *)

Lemma sequence_map {A B} (f : A -> outcome B) (g : A -> B) (ok : A -> bool) l :
  Forall (fun x => f x = if ok x then Ok (g x) else Beyond) l ->
  sequence (map f l) = if forallb ok l then Ok (map g l) else Beyond.
Proof.
  induction 1 as [| x r Hx Hr IH]; [reflexivity |].
  simpl. rewrite Hx, IH.
  destruct (ok x); [| reflexivity]. simpl.
  destruct (forallb ok r); reflexivity.
Qed.

(** [json.dumps] returns the text of a value within the limit, and is
    outside the model on every other value. *)
Lemma dumps_spec v : dumps v = if limited v then Ok (encode v) else Beyond.
Proof.
  induction v as [| b | z | s | l IH | kvs IH] using pyval_ind'.
  - reflexivity.
  - destruct b; reflexivity.
  - reflexivity.
  - reflexivity.
  - change (dumps (PList l))
      with (pieces <-? sequence (map dumps l) ;; Ok ("[" ++ concat_sep pieces ++ "]")).
    rewrite (sequence_map dumps encode limited l IH).
    change (limited (PList l)) with (forallb limited l).
    destruct (forallb limited l); reflexivity.
  - change (dumps (PDict kvs))
      with (pieces <-? sequence
                         (map (fun kv => t <-? dumps (snd kv) ;;
                                         Ok (dumps_string (fst kv) ++ ": " ++ t)) kvs) ;;
            Ok ("{" ++ concat_sep pieces ++ "}")).
    rewrite (sequence_map _ member_text (fun kv => limited (snd kv)) kvs).
    + change (limited (PDict kvs)) with (forallb (fun kv => limited (snd kv)) kvs).
      destruct (forallb (fun kv => limited (snd kv)) kvs); reflexivity.
    + eapply Forall_impl; [exact IH |]. simpl. intros kv Hkv. rewrite Hkv.
      destruct (limited (snd kv)); reflexivity.
Qed.

Lemma dumps_Ok_inv v t : dumps v = Ok t -> limited v = true /\ t = encode v.
Proof.
  rewrite dumps_spec. destruct (limited v); [| discriminate].
  now intros [= <-].
Qed.

(** The limit on the digits of an integer, in the decoder as in the
    encoder: the decimal text of a number past the limit is outside the
    model. *)
Lemma loads_past_limit n :
  within_limit (String.length (digits n)) = false -> loads (digits n) = Beyond.
Proof.
  intros Hlim. unfold loads.
  destruct (digits_head n) as (c & t & E & Hd & _).
  assert (Hstart : value_start c = true) by (unfold value_start; now rewrite Hd).
  rewrite E, (skip_ws_value c t Hstart).
  replace (2 * String.length (String c t) + 2)
    with (S (2 * String.length (String c t) + 1)) by lia.
  rewrite scan_once_number by now left.
  rewrite scan_number_plain by exact Hd.
  rewrite <- E, <- (append_nil_r (digits n)).
  rewrite scan_int_part_digits by reflexivity.
  rewrite digit_count, Hlim. reflexivity.
Qed.

Lemma dumps_past_limit z :
  within_limit (String.length (digits (Z.abs_N z))) = false ->
  dumps (PInt z) = Beyond.
Proof. intros H. simpl. unfold dumps_int. now rewrite H. Qed.

(** [json.loads(json.dumps(v)) == v] for every value with distinct keys
    that [json.dumps] has a text for. *)
Lemma loads_dumps v t :
  unique_keys v = true -> dumps v = Ok t -> loads t = Ok v.
Proof.
  intros Huk Ht. apply dumps_Ok_inv in Ht as [Hlim ->]. now apply loads_encode.
Qed.

End JsonFacts.

(** ** Writing the cache and reading it back *)

Lemma util_write_file_inv v content w w' :
  util_write_file v content w = (Ok tt, w') ->
  exists p, v = PStr p /\ canonical p = true /\
            node_at (w_fs w') p = Some (File content).
Proof.
  destruct v; simpl; unfold beyond, raise; try discriminate.
  destruct (canonical s) eqn:Hc; [| discriminate].
  intros H. exists s. split; [reflexivity |]. split; [exact Hc |].
  unfold node_at in *.
  destruct (String.eqb_spec s "/") as [-> | Hne]; [discriminate H |].
  destruct (w_fs w !! s) as [[| c] |];
    try discriminate H;
    (destruct (if String.eqb (os_path_dirname s) "/" then Some Dir
               else w_fs w !! os_path_dirname s) as [[| c'] |];
     try discriminate H; injection H as <-; simpl; apply lookup_insert_eq).
Qed.

(** After a [write_cache] that completed, the file of the key holds the
    text that was written. *)
Lemma write_cache_stores self key content w w' :
  write_cache self key content w = (Ok tt, w') ->
  exists p text, data_path self key = Ok (PStr p) /\ canonical p = true /\
    cache_text content = Ok text /\
    node_at (w_fs w') p = Some (File text).
Proof.
  unfold write_cache. intros H.
  apply bind_Ok_inv in H as (d & w1 & _ & H).
  apply bind_Ok_inv in H as (there & w2 & _ & H).
  apply bind_Ok_inv in H as ([] & w3 & _ & H).
  apply bind_Ok_inv in H as (filepath & w4 & Hpath & H).
  apply lift_Ok_inv in Hpath as [Hpath ->].
  apply bind_Ok_inv in H as (text & w5 & Htext & H).
  apply lift_Ok_inv in Htext as [Htext ->].
  apply util_write_file_inv in H as (p & -> & Hc & Hnode).
  exists p, text. auto.
Qed.

(** The text of a value that is not a string is what [json.dumps] returns. *)
Lemma cache_text_structured v text :
  is_string v = false -> cache_text v = Ok text -> Json.dumps v = Ok text.
Proof. destruct v; intros Hs H; try exact H. discriminate Hs. Qed.

(** [read_cache] on a file that exists: the parsed text when that is
    truthy, the text otherwise. *)
Lemma read_cache_present self key p content w :
  data_path self key = Ok (PStr p) -> canonical p = true ->
  node_at (w_fs w) p = Some (File content) ->
  read_cache self key w =
  match util_maybe_parse_json content with
  | Ok j => (Ok (if truthy j then j else PStr content), w)
  | Raise e => (Raise e, w)
  | Beyond => (Beyond, w)
  end.
Proof.
  intros Hpath Hc Hnode. unfold read_cache.
  rewrite (bind_Ok _ _ w (PStr p) w) by (unfold lift; now rewrite Hpath).
  rewrite (bind_Ok _ _ w true w) by now apply os_path_exists_present with (File content).
  cbn [negb]. cbv beta iota.
  rewrite (bind_Ok _ _ w content w)
    by (unfold util_load_file; now rewrite Hc, Hnode).
  unfold bind, lift, ret. destruct (util_maybe_parse_json content); reflexivity.
Qed.

(** [write_cache] completes when the data directory is there, the
    content has a text, and the file of the key lies in an existing
    directory and is not one itself. *)
Lemma write_cache_completes self key content text d p w :
  cfg self !! "data_dir" = Some (PStr d) ->
  canonical d = true -> node_at (w_fs w) d = Some Dir ->
  data_path self key = Ok (PStr p) ->
  canonical p = true ->
  cache_text content = Ok text ->
  node_at (w_fs w) p <> Some Dir ->
  node_at (w_fs w) (os_path_dirname p) = Some Dir ->
  exists w', write_cache self key content w = (Ok tt, w').
Proof.
  intros Hd Hcd Hnd Hpath Hcp Htext Hnp Hparent. unfold write_cache, data_dir, getitem.
  rewrite Hd.
  erewrite bind_Ok by reflexivity.
  erewrite bind_Ok by (eapply os_path_exists_present; eassumption).
  cbn [negb]. cbv beta iota.
  erewrite bind_Ok by reflexivity.
  erewrite bind_Ok by (unfold lift; now rewrite Hpath).
  erewrite bind_Ok by (unfold lift; now rewrite Htext).
  unfold util_write_file. rewrite Hcp, Hparent.
  destruct (node_at (w_fs w) p) as [[| c] |]; [contradiction | eauto | eauto].
Qed.

(** C2, as the code has it.  For every key and every truthy value that is
    not a string (a non-empty mapping or sequence, [True], a non-zero
    integer) and whose mappings have distinct string keys: when
    [write_cache(key, obj)] completes, [read_cache(key)] on the resulting
    store returns [obj], and leaves the world as it is. *)
Theorem write_read_roundtrip
    (self : UAConfig) (key : option string) (obj : pyval) (w w' : world)
    (Hkeys : Json.unique_keys obj = true)
    (Hstructured : is_string obj = false)
    (Htruthy : truthy obj = true)
    (Hwrite : write_cache self key obj w = (Ok tt, w')) :
  read_cache self key w' = (Ok obj, w').
Proof.
  apply write_cache_stores in Hwrite as (p & text & Hpath & Hc & Htext & Hnode).
  rewrite (read_cache_present self key p _ w' Hpath Hc Hnode).
  apply cache_text_structured in Htext; [| exact Hstructured].
  unfold util_maybe_parse_json.
  rewrite (JsonFacts.loads_dumps obj text Hkeys Htext). now rewrite Htruthy.
Qed.

Lemma write_read_roundtrip_witness :
  exists w',
    write_cache default_instance (Some "accounts")
      (PDict [("name", PStr "team"); ("ids", PList [PInt 7; PInt (-3)])]) bare_world
      = (Ok tt, w') /\
    read_cache default_instance (Some "accounts") w'
      = (Ok (PDict [("name", PStr "team"); ("ids", PList [PInt 7; PInt (-3)])]), w').
Proof.
  set (obj := PDict [("name", PStr "team"); ("ids", PList [PInt 7; PInt (-3)])]).
  assert (Hrun : is_ok (fst (write_cache default_instance (Some "accounts") obj bare_world))
                 = true) by (vm_compute; reflexivity).
  destruct (write_cache default_instance (Some "accounts") obj bare_world)
    as [[[] | e |] w'] eqn:E; try discriminate Hrun.
  exists w'. split; [reflexivity |].
  exact (write_read_roundtrip default_instance (Some "accounts") obj bare_world w'
           eq_refl eq_refl eq_refl E).
Defined.

(** C2, as stated, fails: an empty mapping is written as the text [{}] and
    read back as that text, not as a mapping; and for the empty key, which
    resolves to the data directory itself, [write_cache] raises. *)
Lemma write_read_empty_mapping :
  Json.unique_keys (PDict []) = true /\
  (exists w',
     write_cache default_instance (Some "accounts") (PDict []) bare_world = (Ok tt, w') /\
     fst (read_cache default_instance (Some "accounts") w') = Ok (PStr "{}")) /\
  PStr "{}" <> PDict [] /\
  fst (write_cache default_instance (Some "") (PDict [("a", PInt 1)]) bare_world)
    = Raise IsADirectoryError.
Proof.
  split; [reflexivity |]. split; [| split; [discriminate | vm_compute; reflexivity]].
  assert (Hrun :
    match write_cache default_instance (Some "accounts") (PDict []) bare_world with
    | (Ok _, w1) => Some (fst (read_cache default_instance (Some "accounts") w1))
    | _ => None
    end = Some (Ok (PStr "{}"))) by (vm_compute; reflexivity).
  destruct (write_cache default_instance (Some "accounts") (PDict []) bare_world)
    as [[[] | e |] w'] eqn:E; try discriminate Hrun.
  injection Hrun as Hread. exists w'. split; [reflexivity | exact Hread].
Qed.

(** ** Attachment *)

Lemma loads_raises_only s e : Json.loads s = Raise e -> e = ValueError.
Proof.
  unfold Json.loads.
  destruct (Json.scan_once _ _) as [v rest | |]; try discriminate.
  - destruct (String.eqb _ _); [discriminate | now intros [= <-]].
  - now intros [= <-].
Qed.

(** C8. [is_attached] is the truth value of [machine_token].  On an
    instance whose memo field is still [None]: it is [False] when the file
    of ['machine-token'] does not exist, and it is [True] right after a
    [write_cache('machine-token', v)] that completed, for every truthy
    [v] (a string [v] is taken within the texts that the decoder covers). *)
Theorem is_attached_spec :
  (forall self w,
     is_attached self w =
     match machine_token self w with
     | (Ok r, w1) => (Ok (truthy (fst r), snd r), w1)
     | (Raise e, w1) => (Raise e, w1)
     | (Beyond, w1) => (Beyond, w1)
     end) /\
  (forall self p w,
     _machine_token self = PNone ->
     data_path self (Some "machine-token") = Ok (PStr p) ->
     canonical p = true ->
     node_at (w_fs w) p = None ->
     exists self' w', is_attached self w = (Ok (false, self'), w')) /\
  (forall self v w w',
     _machine_token self = PNone ->
     truthy v = true ->
     Json.unique_keys v = true ->
     (forall s, v = PStr s -> Json.loads s <> Beyond) ->
     write_cache self (Some "machine-token") v w = (Ok tt, w') ->
     exists self' w'', is_attached self w' = (Ok (true, self'), w'')).
Proof.
  split; [| split].
  - intros self w. unfold is_attached, bind, ret.
    destruct (machine_token self w) as [[r | e |] w1]; reflexivity.
  - intros self p w Hfresh Hpath Hc Habsent.
    pose proof (read_cache_missing self (Some "machine-token") p w Hpath Hc Habsent)
      as Hread.
    unfold is_attached, machine_token. rewrite Hfresh. simpl.
    unfold bind at 1 2 3. rewrite Hread. simpl. eauto.
  - intros self v w w' Hfresh Htruthy Hkeys Hcovered Hwrite.
    apply write_cache_stores in Hwrite as (p & text & Hpath & Hc & Htext & Hnode).
    pose proof (read_cache_present self _ p _ w' Hpath Hc Hnode) as Hread.
    assert (Hgood : exists r, read_cache self (Some "machine-token") w' = (Ok r, w')
                              /\ truthy r = true).
    { destruct v as [| b | z | s | l | kvs];
        try (unfold util_maybe_parse_json in Hread;
             rewrite (JsonFacts.loads_dumps _ _ Hkeys Htext) in Hread;
             rewrite Htruthy in Hread; eauto).
      injection Htext as <-.
      assert (Hs : truthy (PStr s) = true) by exact Htruthy.
      unfold util_maybe_parse_json in Hread.
      destruct (Json.loads s) as [j | e |] eqn:Ej.
      - destruct (truthy j) eqn:Tj; eauto.
      - rewrite (loads_raises_only s e Ej) in Hread. simpl in Hread. eauto.
      - exfalso. now apply (Hcovered s eq_refl). }
    destruct Hgood as (r & Hr & Tr).
    unfold is_attached, machine_token. rewrite Hfresh. simpl.
    unfold bind at 1 2 3. rewrite Hr. simpl. rewrite Tr. eauto.
Qed.

Lemma is_attached_spec_witness :
  (exists self' w', is_attached default_instance bare_world = (Ok (false, self'), w')) /\
  exists w' self' w'',
    write_cache default_instance (Some "machine-token")
      (PDict [("machineToken", PStr "secret")]) bare_world = (Ok tt, w') /\
    is_attached default_instance w' = (Ok (true, self'), w'').
Proof.
  destruct is_attached_spec as (_ & Hdetached & Hattached).
  split.
  - exact (Hdetached default_instance
             "/var/lib/ubuntu-advantage/machine-token.json" bare_world
             eq_refl eq_refl eq_refl eq_refl).
  - set (v := PDict [("machineToken", PStr "secret")]).
    assert (Hrun : is_ok (fst (write_cache default_instance (Some "machine-token") v
                                 bare_world)) = true) by (vm_compute; reflexivity).
    destruct (write_cache default_instance (Some "machine-token") v bare_world)
      as [[[] | e |] w'] eqn:E; try discriminate Hrun.
    destruct (Hattached default_instance v bare_world w' eq_refl eq_refl eq_refl
                ltac:(discriminate) E) as (self' & w'' & H).
    exists w', self', w''. split; [reflexivity | exact H].
Defined.

(** ** More on the cache accessors *)

Lemma node_at_insert_ne fs p q x :
  p <> q -> node_at (<[p := x]> fs) q = node_at fs q.
Proof.
  intros H. unfold node_at. destruct (String.eqb q "/"); [reflexivity |].
  now apply lookup_insert_ne.
Qed.

Lemma node_at_insert_eq fs p x :
  p <> "/" -> node_at (<[p := x]> fs) p = Some x.
Proof.
  intros H. unfold node_at.
  destruct (String.eqb_spec p "/"); [contradiction |]. apply lookup_insert_eq.
Qed.

(** [read_cache] changes nothing of the world but the log, which it may
    extend by one record. *)
Lemma read_cache_world self key w :
  snd (read_cache self key w) = w \/
  exists r, snd (read_cache self key w) = add_log w r.
Proof.
  unfold read_cache, bind, lift, ret.
  destruct (data_path self key) as [v | e |]; simpl; auto.
  destruct v as [| b | z | p | l | kvs]; simpl; unfold beyond, raise; auto.
  destruct (canonical p); simpl; auto.
  destruct (bool_decide _); simpl.
  - destruct (node_at (w_fs w) p) as [[| c] |]; simpl; auto.
    destruct (util_maybe_parse_json c); simpl; auto.
  - right. eexists. reflexivity.
Qed.

Lemma read_cache_fs self key w : w_fs (snd (read_cache self key w)) = w_fs w.
Proof. destruct (read_cache_world self key w) as [-> | [r ->]]; reflexivity. Qed.

(** X1. [read_cache] never changes the file store, the environment or the
    working directory, whatever the key and whatever it returns or raises;
    the log grows by at most one record. *)
Theorem read_cache_preserves_store (self : UAConfig) (key : option string) (w : world) :
  w_fs (snd (read_cache self key w)) = w_fs w /\
  w_environ (snd (read_cache self key w)) = w_environ w /\
  w_cwd (snd (read_cache self key w)) = w_cwd w /\
  (w_log (snd (read_cache self key w)) = w_log w \/
   exists r, w_log (snd (read_cache self key w)) = (w_log w ++ [r])%list).
Proof.
  destruct (read_cache_world self key w) as [-> | [r ->]].
  - auto.
  - repeat split; try reflexivity. right. now exists r.
Qed.

(** What [read_cache] returns depends on the file store alone. *)
Lemma read_cache_fst_fs self key w1 w2 :
  w_fs w1 = w_fs w2 -> fst (read_cache self key w1) = fst (read_cache self key w2).
Proof.
  intros H. unfold read_cache, bind, lift, ret.
  destruct (data_path self key) as [v | e |]; simpl; auto.
  destruct v as [| b | z | p | l | kvs]; simpl; unfold beyond, raise; auto.
  destruct (canonical p); simpl; auto.
  rewrite H. destruct (bool_decide _); simpl; auto.
  rewrite H. destruct (node_at (w_fs w2) p) as [[| c] |]; simpl; auto.
  destruct (util_maybe_parse_json c); simpl; auto.
Qed.

(** The steps of a [write_cache] that completed. *)
Lemma write_cache_inv self key content w w' :
  write_cache self key content w = (Ok tt, w') ->
  exists d p text w2,
    cfg self !! "data_dir" = Some (PStr d) /\ canonical d = true /\
    (node_at (w_fs w) d <> None /\ w2 = w \/
     node_at (w_fs w) d = None /\ os_makedirs (PStr d) w = (Ok tt, w2)) /\
    data_path self key = Ok (PStr p) /\ canonical p = true /\
    cache_text content = Ok text /\
    node_at (w_fs w2) p <> Some Dir /\
    node_at (w_fs w2) (os_path_dirname p) = Some Dir /\
    w' = set_fs w2 (<[p := File text]> (w_fs w2)).
Proof.
  unfold write_cache, data_dir, getitem. intros H.
  apply bind_Ok_inv in H as (dv & w1 & Hd & H).
  apply lift_Ok_inv in Hd as [Hd ->].
  destruct (cfg self !! "data_dir") as [dv' |] eqn:Ecfg; [| discriminate].
  injection Hd as ->.
  apply bind_Ok_inv in H as (there & w1 & Hex & H).
  pose proof (os_path_exists_world _ _ _ _ Hex) as ->.
  destruct dv as [| b | z | d | l | kvs]; simpl in Hex;
    unfold beyond, raise in Hex; try discriminate.
  destruct (canonical d) eqn:Hcd; [| discriminate].
  injection Hex as Hthere.
  apply bind_Ok_inv in H as ([] & w2 & Hmk & H).
  apply bind_Ok_inv in H as (filepath & w3 & Hpath & H).
  apply lift_Ok_inv in Hpath as [Hpath ->].
  apply bind_Ok_inv in H as (text & w4 & Htext & H).
  apply lift_Ok_inv in Htext as [Htext ->].
  destruct filepath as [| b | z | p | l | kvs]; simpl in H;
    unfold beyond, raise in H; try discriminate.
  destruct (canonical p) eqn:Hcp; [| discriminate].
  exists d, p, text, w2. split; [reflexivity |]. split; [exact Hcd |].
  split.
  { destruct there; simpl in Hmk.
    - left. unfold ret in Hmk. injection Hmk as <-. split; [| reflexivity].
      apply bool_decide_eq_true_1 in Hthere.
      destruct Hthere as [n Hn]. congruence.
    - right. apply bool_decide_eq_false_1 in Hthere.
      split.
      + destruct (node_at (w_fs w) d) eqn:En; [| reflexivity].
        exfalso. apply Hthere. eauto.
      + apply bind_Ok_inv in Hmk as (dv2 & w1 & Hd2 & Hmk).
        apply lift_Ok_inv in Hd2 as [Hd2 ->].
        injection Hd2 as <-. exact Hmk. }
  split; [exact Hpath |]. split; [exact Hcp |]. split; [exact Htext |].
  destruct (node_at (w_fs w2) p) as [[| c] |] eqn:Ep; try discriminate H;
    (destruct (node_at (w_fs w2) (os_path_dirname p)) as [[| c'] |] eqn:Epar;
     try discriminate H; injection H as <-;
     (split; [discriminate |]); split; reflexivity).
Qed.

(** A file is not its own parent directory. *)
Lemma write_target_not_parent fs p :
  node_at fs p <> Some Dir -> node_at fs (os_path_dirname p) = Some Dir ->
  os_path_dirname p <> p.
Proof. intros H1 H2 E. rewrite E in H2. contradiction. Qed.

(** [os.makedirs] leaves a directory at its argument. *)
Lemma os_makedirs_makes d w w' :
  os_makedirs (PStr d) w = (Ok tt, w') -> node_at (w_fs w') d = Some Dir.
Proof.
  unfold os_makedirs. destruct (canonical d); [| discriminate].
  simpl. intros H.
  apply bind_Ok_inv in H as ([] & w1 & _ & H).
  unfold os_mkdir in H.
  destruct (node_at (w_fs w1) d); [discriminate |].
  destruct (node_at (w_fs w1) (os_path_dirname d)) as [[| c] |]; try discriminate.
  injection H as <-. simpl.
  unfold node_at. destruct (String.eqb d "/"); [reflexivity |].
  apply lookup_insert_eq.
Qed.

(** The data directory once [write_cache] is past its first statement. *)
Lemma write_cache_dir_ready d w w2 :
  (node_at (w_fs w) d <> None /\ w2 = w \/
   node_at (w_fs w) d = None /\ os_makedirs (PStr d) w = (Ok tt, w2)) ->
  node_at (w_fs w2) d <> None /\
  (node_at (w_fs w) d = None -> node_at (w_fs w2) d = Some Dir).
Proof.
  intros [[Hd ->] | [Hd Hmk]].
  - split; [exact Hd | intros H; contradiction].
  - apply os_makedirs_makes in Hmk. split; [congruence | auto].
Qed.

(** X2. After a [write_cache] that completed, the data directory exists:
    it was there before, or [os.makedirs] has made it a directory. *)
Theorem write_cache_makes_data_dir
    (self : UAConfig) (key : option string) (content : pyval) (w w' : world)
    (Hwrite : write_cache self key content w = (Ok tt, w')) :
  exists d,
    cfg self !! "data_dir" = Some (PStr d) /\
    node_at (w_fs w') d <> None /\
    (node_at (w_fs w) d = None -> node_at (w_fs w') d = Some Dir).
Proof.
  apply write_cache_inv in Hwrite
    as (d & p & text & w2 & Hcfg & Hcd & Hdir & Hpath & Hcp & _ & Hnp & Hpar & ->).
  exists d. split; [exact Hcfg |].
  destruct (write_cache_dir_ready d w w2 Hdir) as [Hd2 Hd3]. simpl.
  destruct (String.eqb_spec p d) as [-> | Hne].
  - rewrite node_at_insert_eq.
    + split; [discriminate |]. intros H. specialize (Hd3 H). contradiction.
    + intros ->. apply Hnp. reflexivity.
  - rewrite node_at_insert_ne by exact Hne. split; assumption.
Qed.

Lemma write_cache_makes_data_dir_witness :
  exists w',
    write_cache default_instance (Some "accounts") (PList [PInt 1]) bare_world
      = (Ok tt, w') /\
    node_at (w_fs w') "/var/lib/ubuntu-advantage" = Some Dir.
Proof.
  assert (Hrun : is_ok (fst (write_cache default_instance (Some "accounts")
                               (PList [PInt 1]) bare_world)) = true)
    by (vm_compute; reflexivity).
  destruct (write_cache default_instance (Some "accounts") (PList [PInt 1])
              bare_world) as [[[] | e |] w'] eqn:E; try discriminate Hrun.
  exists w'. split; [reflexivity |].
  destruct (write_cache_makes_data_dir default_instance (Some "accounts")
              (PList [PInt 1]) bare_world w' E) as (d & Hcfg & _ & Hmade).
  assert (Hd : cfg default_instance !! "data_dir"
               = Some (PStr "/var/lib/ubuntu-advantage")) by reflexivity.
  rewrite Hd in Hcfg. injection Hcfg as <-.
  apply Hmade. reflexivity.
Defined.

(** X3. After a completed [write_cache] of a string, [read_cache] returns
    the string itself when it is not JSON, and otherwise what the JSON
    text denotes if that is truthy: a string that reads as JSON does not
    come back as a string. *)
Theorem write_text_then_read
    (self : UAConfig) (key : option string) (s : string) (w w' : world)
    (Hwrite : write_cache self key (PStr s) w = (Ok tt, w')) :
  (Json.loads s = Raise ValueError ->
   read_cache self key w' = (Ok (PStr s), w')) /\
  (forall j, Json.loads s = Ok j ->
   read_cache self key w' = (Ok (if truthy j then j else PStr s), w')).
Proof.
  apply write_cache_stores in Hwrite as (p & text & Hpath & Hc & Htext & Hnode).
  injection Htext as <-.
  pose proof (read_cache_present self key p s w' Hpath Hc Hnode) as Hread.
  unfold util_maybe_parse_json in Hread. split.
  - intros E. now rewrite E in Hread.
  - intros j E. now rewrite E in Hread.
Qed.

Lemma write_text_then_read_witness :
  exists w',
    write_cache default_instance (Some "sso-token") (PStr "plain text") bare_world
      = (Ok tt, w') /\
    read_cache default_instance (Some "sso-token") w' = (Ok (PStr "plain text"), w') /\
    exists w'',
      write_cache default_instance (Some "sso-token") (PStr "[1, 2]") w' = (Ok tt, w'') /\
      read_cache default_instance (Some "sso-token") w''
        = (Ok (PList [PInt 1; PInt 2]), w'').
Proof.
  assert (Hrun : is_ok (fst (write_cache default_instance (Some "sso-token")
                               (PStr "plain text") bare_world)) = true)
    by (vm_compute; reflexivity).
  destruct (write_cache default_instance (Some "sso-token") (PStr "plain text")
              bare_world) as [[[] | e |] w'] eqn:E; try discriminate Hrun.
  exists w'. split; [reflexivity |]. split.
  - apply (proj1 (write_text_then_read _ _ _ _ _ E)). vm_compute. reflexivity.
  - assert (Hrun2 :
      match write_cache default_instance (Some "sso-token") (PStr "plain text")
              bare_world with
      | (Ok _, w1) =>
          is_ok (fst (write_cache default_instance (Some "sso-token")
                        (PStr "[1, 2]") w1))
      | _ => false
      end = true) by (vm_compute; reflexivity).
    rewrite E in Hrun2.
    destruct (write_cache default_instance (Some "sso-token") (PStr "[1, 2]") w')
      as [[[] | e |] w''] eqn:E2; try discriminate Hrun2.
    exists w''. split; [reflexivity |].
    apply (proj2 (write_text_then_read _ _ _ _ _ E2) (PList [PInt 1; PInt 2])).
    vm_compute. reflexivity.
Defined.

(** [write_cache] completes when the data directory exists, and the file
    of the key lies in a directory and is not one itself. *)
Lemma write_cache_completes_at self key content text d p w :
  cfg self !! "data_dir" = Some (PStr d) ->
  canonical d = true -> node_at (w_fs w) d <> None ->
  data_path self key = Ok (PStr p) ->
  canonical p = true ->
  cache_text content = Ok text ->
  node_at (w_fs w) p <> Some Dir ->
  node_at (w_fs w) (os_path_dirname p) = Some Dir ->
  write_cache self key content w
    = (Ok tt, set_fs w (<[p := File text]> (w_fs w))).
Proof.
  intros Hd Hcd Hnd Hpath Hcp Htext Hnp Hparent. unfold write_cache, data_dir, getitem.
  rewrite Hd.
  erewrite bind_Ok by reflexivity.
  destruct (node_at (w_fs w) d) as [n |] eqn:En; [| contradiction].
  erewrite bind_Ok by (eapply os_path_exists_present; eassumption).
  cbn [negb]. cbv beta iota.
  erewrite bind_Ok by reflexivity.
  erewrite bind_Ok by (unfold lift; now rewrite Hpath).
  erewrite bind_Ok by (unfold lift; now rewrite Htext).
  unfold util_write_file. rewrite Hcp, Hparent.
  destruct (node_at (w_fs w) p) as [[| c] |]; [contradiction | reflexivity | reflexivity].
Qed.

(** X4. A cache entry that was written can be written again: after a
    completed [write_cache(key, a)], every [write_cache(key, b)] of a
    string [b], or of a value [b] that [json.dumps] has a text for,
    completes too, and it replaces the entry, so that [read_cache(key)]
    returns [b] for a truthy [b] that is not a string. *)
Theorem write_cache_overwrites
    (self : UAConfig) (key : option string) (a b : pyval) (text : string)
    (w w1 : world)
    (Hfirst : write_cache self key a w = (Ok tt, w1))
    (Htext : cache_text b = Ok text) :
  exists w2,
    write_cache self key b w1 = (Ok tt, w2) /\
    (forall p, data_path self key = Ok (PStr p) ->
       node_at (w_fs w2) p = Some (File text)) /\
    (Json.unique_keys b = true -> is_string b = false -> truthy b = true ->
     read_cache self key w2 = (Ok b, w2)).
Proof.
  apply write_cache_inv in Hfirst
    as (d & p & ta & w0 & Hcfg & Hcd & Hdir & Hpath & Hcp & _ & Hnp & Hpar & ->).
  destruct (write_cache_dir_ready d w w0 Hdir) as [Hd1 _].
  assert (Hp : p <> "/") by (intros ->; now apply Hnp).
  pose proof (write_target_not_parent _ _ Hnp Hpar) as Hne.
  eexists. split; [| split].
  - apply (write_cache_completes_at self key b text d p); try assumption.
    + simpl. destruct (String.eqb_spec p d) as [-> | Hpd].
      * rewrite node_at_insert_eq by exact Hp. discriminate.
      * rewrite node_at_insert_ne by exact Hpd. exact Hd1.
    + simpl. rewrite node_at_insert_eq by exact Hp. discriminate.
    + simpl. rewrite node_at_insert_ne by congruence. exact Hpar.
  - intros p' Hp'. rewrite Hpath in Hp'. injection Hp' as <-.
    simpl. now apply node_at_insert_eq.
  - intros Hk Hs Ht.
    rewrite (read_cache_present self key p text);
      [| exact Hpath | exact Hcp | simpl; now apply node_at_insert_eq].
    apply cache_text_structured in Htext; [| exact Hs].
    unfold util_maybe_parse_json.
    rewrite (JsonFacts.loads_dumps b text Hk Htext). now rewrite Ht.
Qed.

Lemma write_cache_overwrites_witness :
  exists w1 w2,
    write_cache default_instance (Some "accounts") (PList [PInt 1]) bare_world
      = (Ok tt, w1) /\
    write_cache default_instance (Some "accounts") (PList [PInt 2; PInt 3]) w1
      = (Ok tt, w2) /\
    read_cache default_instance (Some "accounts") w2
      = (Ok (PList [PInt 2; PInt 3]), w2).
Proof.
  assert (Hrun : is_ok (fst (write_cache default_instance (Some "accounts")
                               (PList [PInt 1]) bare_world)) = true)
    by (vm_compute; reflexivity).
  destruct (write_cache default_instance (Some "accounts") (PList [PInt 1])
              bare_world) as [[[] | e |] w1] eqn:E; try discriminate Hrun.
  destruct (write_cache_overwrites default_instance (Some "accounts")
              (PList [PInt 1]) (PList [PInt 2; PInt 3]) "[2, 3]" bare_world w1 E
              eq_refl)
    as (w2 & H2 & _ & Hread).
  exists w1, w2. split; [reflexivity |]. split; [exact H2 |].
  apply Hread; reflexivity.
Defined.

(** What [read_cache] returns depends on the store at the path of the key
    alone. *)
Lemma read_cache_fst_node self key w1 w2 :
  (forall p, data_path self key = Ok (PStr p) ->
             node_at (w_fs w1) p = node_at (w_fs w2) p) ->
  fst (read_cache self key w1) = fst (read_cache self key w2).
Proof.
  intros H. unfold read_cache, bind, lift, ret.
  destruct (data_path self key) as [v | e |]; simpl; auto.
  destruct v as [| b | z | p | l | kvs]; simpl; unfold beyond, raise; auto.
  specialize (H p eq_refl).
  destruct (canonical p); simpl; auto.
  rewrite H. destruct (bool_decide _); simpl; auto.
  rewrite H. destruct (node_at (w_fs w2) p) as [[| c] |]; simpl; auto.
  destruct (util_maybe_parse_json c); simpl; auto.
Qed.

(** X5. Writing one entry leaves the others alone: when the data directory
    exists, a completed [write_cache(k1, content)] does not change what
    [read_cache(k2)] returns for any key [k2] that resolves to another
    path. *)
Theorem write_cache_frame
    (self : UAConfig) (k1 k2 : option string) (content : pyval) (d : string)
    (w w' : world)
    (Hcfg : cfg self !! "data_dir" = Some (PStr d))
    (Hdir : node_at (w_fs w) d <> None)
    (Hother : data_path self k1 <> data_path self k2)
    (Hwrite : write_cache self k1 content w = (Ok tt, w')) :
  fst (read_cache self k2 w') = fst (read_cache self k2 w).
Proof.
  apply write_cache_inv in Hwrite
    as (d' & p & text & w0 & Hcfg' & Hcd & Hcase & Hpath & Hcp & _ & Hnp & Hpar & ->).
  rewrite Hcfg in Hcfg'. injection Hcfg' as <-.
  destruct Hcase as [[_ ->] | [Hnone _]]; [| contradiction].
  apply read_cache_fst_node. intros p2 Hp2. simpl.
  apply node_at_insert_ne. intros ->. apply Hother. now rewrite Hpath, Hp2.
Qed.

Lemma write_cache_frame_witness :
  exists w',
    write_cache default_instance (Some "accounts") (PList [PInt 1]) falsy_cache_world
      = (Ok tt, w') /\
    fst (read_cache default_instance (Some "machine-token") w')
      = fst (read_cache default_instance (Some "machine-token") falsy_cache_world).
Proof.
  assert (Hrun : is_ok (fst (write_cache default_instance (Some "accounts")
                               (PList [PInt 1]) falsy_cache_world)) = true)
    by (vm_compute; reflexivity).
  destruct (write_cache default_instance (Some "accounts") (PList [PInt 1])
              falsy_cache_world) as [[[] | e |] w'] eqn:E; try discriminate Hrun.
  exists w'. split; [reflexivity |].
  apply (write_cache_frame default_instance (Some "accounts") (Some "machine-token")
           (PList [PInt 1]) "/var/lib/ubuntu-advantage" falsy_cache_world w');
    [reflexivity | vm_compute; discriminate | vm_compute; discriminate | exact E].
Defined.

(** *** The table of file names *)

Lemma append_inv_head (a x y : string) : a ++ x = a ++ y -> x = y.
Proof.
  induction a as [| c a IH]; [exact (fun H => H) |].
  rewrite !JsonFacts.append_cons. intros [= H]. auto.
Qed.

(** [os.path.join(d, .)] tells relative names apart. *)
Lemma os_path_join_inj d n1 n2 :
  startswith n1 "/" = false -> startswith n2 "/" = false ->
  os_path_join d n1 = os_path_join d n2 -> n1 = n2.
Proof.
  unfold os_path_join. intros -> ->.
  destruct (String.eqb d "" || endswith_char d sep); intros H.
  - now apply append_inv_head in H.
  - apply append_inv_head in H. now apply (append_inv_head "/") in H.
Qed.

Lemma data_paths_entries k n :
  data_paths !! k = Some n ->
  In (k, n)
    [("accounts", "accounts.json");
     ("account-contracts", "account-contracts.json");
     ("account-users", "account-users.json");
     ("machine-contracts", "machine-contracts.json");
     ("machine-access-esm", "machine-access-esm.json");
     ("machine-access-fips", "machine-access-fips.json");
     ("machine-access-fips-updates", "machine-access-fips-updates.json");
     ("machine-access-livepatch", "machine-access-livepatch.json");
     ("machine-detach", "machine-detach.json");
     ("machine-token", "machine-token.json");
     ("macaroon", "sso-macaroon.json");
     ("oauth", "sso-oauth.json")].
Proof.
  intros H. apply list_elem_of_In. now apply elem_of_list_to_map_2.
Qed.

Lemma data_paths_relative k n :
  data_paths !! k = Some n -> startswith n "/" = false.
Proof.
  intros H. apply data_paths_entries in H. simpl in H.
  repeat (destruct H as [H | H]; [injection H as <- <-; reflexivity |]).
  contradiction.
Qed.

Lemma data_path_table_inj (self : UAConfig) (d k1 k2 n1 n2 : string) :
  cfg self !! "data_dir" = Some (PStr d) ->
  data_paths !! k1 = Some n1 -> data_paths !! k2 = Some n2 ->
  data_path self (Some k1) = data_path self (Some k2) -> k1 = k2.
Proof.
  intros Hcfg H1 H2 Hsame.
  assert (Hk : forall k n, data_paths !! k = Some n ->
            data_path self (Some k) = Ok (PStr (os_path_join d n))).
  { intros k n Hn. unfold data_path, getitem. rewrite Hcfg, Hn.
    destruct (String.eqb_spec k "") as [-> |]; [discriminate Hn | reflexivity]. }
  rewrite (Hk _ _ H1), (Hk _ _ H2) in Hsame. injection Hsame as Hjoin.
  assert (Hn : n1 = n2)
    by (apply (os_path_join_inj d); eauto using data_paths_relative).
  apply data_paths_entries in H1, H2.
  subst n2. simpl in H1, H2.
  repeat (destruct H1 as [H1 | H1]; [injection H1 as <- <- |]); try contradiction;
    repeat (destruct H2 as [H2 | H2]; [try discriminate H2; now injection H2 as <- |]);
    contradiction.
Qed.

(** X6. Two different keys of the table [data_paths] never resolve to the
    same path: each known cache entry has a file of its own. *)
Theorem data_path_distinct_on_table
    (self : UAConfig) (d : string) (k1 k2 n1 n2 : string)
    (Hcfg : cfg self !! "data_dir" = Some (PStr d))
    (H1 : data_paths !! k1 = Some n1)
    (H2 : data_paths !! k2 = Some n2)
    (Hne : k1 <> k2) :
  data_path self (Some k1) <> data_path self (Some k2).
Proof. intros Hsame. apply Hne. eapply data_path_table_inj; eassumption. Qed.

Lemma data_path_distinct_on_table_witness :
  data_path default_instance (Some "macaroon")
    <> data_path default_instance (Some "oauth").
Proof.
  exact (data_path_distinct_on_table default_instance "/var/lib/ubuntu-advantage"
           "macaroon" "oauth" "sso-macaroon.json" "sso-oauth.json"
           eq_refl eq_refl eq_refl ltac:(discriminate)).
Defined.

(** X7. An entry of the table can also be reached under its file name:
    for a key [k] with file name [n], the unknown key [n] resolves to the
    path of [k], so a write under one is read under the other. *)
Theorem data_path_alias (self : UAConfig) (k n : string)
    (Hn : data_paths !! k = Some n) :
  data_path self (Some n) = data_path self (Some k).
Proof.
  unfold data_path. rewrite Hn.
  destruct (String.eqb_spec k "") as [-> |]; [discriminate Hn |].
  apply data_paths_entries in Hn. simpl in Hn.
  repeat (destruct Hn as [Hn | Hn]; [injection Hn as <- <-; reflexivity |]).
  contradiction.
Qed.

Lemma data_path_alias_witness :
  data_path default_instance (Some "sso-macaroon.json")
    = data_path default_instance (Some "macaroon").
Proof. exact (data_path_alias default_instance "macaroon" "sso-macaroon.json" eq_refl). Defined.

(** ** More on the configuration resolver *)

Lemma stable_ret {A} (a : A) : stable (ret a).
Proof. intros w. reflexivity. Qed.

Lemma stable_lift {A} (o : outcome A) : stable (lift o).
Proof. intros w. reflexivity. Qed.

Lemma stable_bind {A B} (m : M A) (k : A -> M B) :
  stable m -> (forall a, stable (k a)) -> stable (bind m k).
Proof.
  intros Hm Hk w. unfold bind. specialize (Hm w).
  destruct (m w) as [[a | e |] w1]; simpl in *; subst; [apply Hk | reflexivity ..].
Qed.

Lemma stable_os_path_exists v : stable (os_path_exists v).
Proof.
  intros w. destruct (os_path_exists v w) as [r w1] eqn:E.
  now apply os_path_exists_world in E.
Qed.

Lemma stable_util_load_file v : stable (util_load_file v).
Proof.
  intros w. destruct v; simpl; try reflexivity.
  destruct (canonical s); [| reflexivity].
  destruct (node_at (w_fs w) s) as [[| c] |]; reflexivity.
Qed.

Lemma stable_py_expanduser v : stable (py_expanduser v).
Proof. intros w. destruct v; reflexivity. Qed.

Create HintDb stable.

#[local] Hint Resolve stable_ret stable_lift stable_os_path_exists
  stable_util_load_file stable_py_expanduser : stable.

(** X8. [parse_config] reads and never writes: whatever it returns or
    raises, the file store, the environment and the working directory are
    as before; the log gains at most one record. *)
Theorem parse_config_preserves_store
    (yaml_load : string -> yaml_result) (p : option string) (w : world) :
  w_fs (snd (parse_config yaml_load p w)) = w_fs w /\
  w_environ (snd (parse_config yaml_load p w)) = w_environ w /\
  w_cwd (snd (parse_config yaml_load p w)) = w_cwd w /\
  (w_log (snd (parse_config yaml_load p w)) = w_log w \/
   exists r, w_log (snd (parse_config yaml_load p w)) = (w_log w ++ [r])%list).
Proof.
  assert (H : snd (parse_config yaml_load p w) = w \/
              exists r, snd (parse_config yaml_load p w) = add_log w r).
  { unfold parse_config.
    destruct (os_path_exists
                (PStr (os_path_join (w_cwd w) (os_path_basename (requested_path p)))) w)
      as [[le | e |] w1] eqn:E;
      pose proof (os_path_exists_world _ _ _ _ E) as ->; unfold requested_path in E.
    - rewrite (bind_Ok _ _ _ _ _ E).
      erewrite bind_Ok by reflexivity.
      right. eexists.
      match goal with |- snd (?m ?w2) = _ => enough (Hs : stable m) by apply Hs end.
      repeat first
        [ apply stable_bind; [| intros ?]
        | match goal with |- stable (if ?b then _ else _) => destruct b end
        | solve [auto with stable] ].
    - rewrite (bind_Raise _ _ _ _ _ E). now left.
    - unfold bind. rewrite E. now left. }
  destruct H as [-> | [r ->]].
  - auto.
  - repeat split; try reflexivity. right. now exists r.
Qed.

(** *** What the returned mapping looks like *)

Lemma upper_char_ascii c : is_ascii c = true -> is_ascii (upper_char c) = true.
Proof.
  destruct c as [[] [] [] [] [] [] [] []]; intros H;
    try (vm_compute in H; discriminate H); reflexivity.
Qed.

Lemma upper_char_idem c : upper_char (upper_char c) = upper_char c.
Proof. destruct c as [[] [] [] [] [] [] [] []]; reflexivity. Qed.

Lemma str_upper_idem s u : str_upper s = Some u -> str_upper u = Some u.
Proof.
  unfold str_upper. destruct (str_forall is_ascii s) eqn:E; [| discriminate].
  intros [= <-].
  assert (H : str_forall is_ascii (str_map upper_char s) = true /\
              str_map upper_char (str_map upper_char s) = str_map upper_char s).
  { induction s as [| c s IH]; simpl in *; [auto |].
    apply andb_prop in E as [Ec Es]. destruct (IH Es) as [IH1 IH2].
    rewrite upper_char_ascii, IH1, upper_char_idem, IH2 by assumption. auto. }
  destruct H as [-> ->]. reflexivity.
Qed.

(** X9. Every mapping that [parse_config] returns has a string under
    [log_level] that is in upper case, and a string under [data_dir]. *)
Theorem parse_config_normalises
    (yaml_load : string -> yaml_result) (p : option string) (w : world)
    (cfg : gmap string pyval) (w' : world)
    (Hrun : parse_config yaml_load p w = (Ok cfg, w')) :
  exists u d,
    cfg !! "log_level" = Some (PStr u) /\ str_upper u = Some u /\
    cfg !! "data_dir" = Some (PStr d).
Proof.
  apply parse_config_Ok_inv in Hrun
    as (base & env_keys & lv & u & dd & _ & _ & _ & Hu & _ & ->).
  exists u, (os_path_expanduser w dd).
  rewrite lookup_insert_ne by discriminate.
  rewrite !lookup_insert_eq. split; [reflexivity |].
  split; [| reflexivity]. eapply str_upper_idem. exact Hu.
Qed.

Lemma parse_config_normalises_witness :
  exists cfg w' u d,
    parse_config yaml_unused None overridden_world = (Ok cfg, w') /\
    cfg !! "log_level" = Some (PStr u) /\ str_upper u = Some u /\
    cfg !! "data_dir" = Some (PStr d).
Proof.
  assert (Hrun : is_ok (fst (parse_config yaml_unused None overridden_world)) = true)
    by (vm_compute; reflexivity).
  destruct (parse_config yaml_unused None overridden_world) as [[c | e |] w'] eqn:E;
    try discriminate Hrun.
  destruct (parse_config_normalises yaml_unused None overridden_world c w' E)
    as (u & d & H).
  exists c, w', u, d. split; [reflexivity | exact H].
Defined.

(** *** Which file is read *)

(** X10. The order of the configuration files, for a run that returns:
    the file named by a non-empty [UA_CONFIG_FILE] is the only one
    consulted; without it, a file of the requested name in the working
    directory is taken before the requested path itself.  Where the file
    consulted is YAML for a mapping, the keys that no variable sets hold
    the mapping merged over the defaults; where it does not exist, the
    defaults alone, even if the other places have a file. *)
Theorem parse_config_file_precedence
    (yaml_load : string -> yaml_result) (p : option string) (w : world)
    (cfg : gmap string pyval) (w' : world)
    (Hrun : parse_config yaml_load p w = (Ok cfg, w')) :
  let requested := requested_path p in
  let local_cfg := os_path_join (w_cwd w) (os_path_basename requested) in
  let from_file (path : string) : Prop :=
    (forall content kvs,
       node_at (w_fs w) path = Some (File content) ->
       yaml_load content = YamlValue (PDict kvs) ->
       forall k, unset_in_env w k ->
         cfg !! k = set_all CONFIG_DEFAULTS kvs !! k ≫= resolved w k) /\
    (node_at (w_fs w) path = None ->
       forall k, unset_in_env w k ->
         cfg !! k = CONFIG_DEFAULTS !! k ≫= resolved w k) in
  (forall q, environ_get w "UA_CONFIG_FILE" = Some q -> q <> "" -> from_file q) /\
  (environ_get w "UA_CONFIG_FILE" = None \/ environ_get w "UA_CONFIG_FILE" = Some "" ->
   (node_at (w_fs w) local_cfg <> None -> from_file local_cfg) /\
   (node_at (w_fs w) local_cfg = None -> from_file requested)).
Proof.
  intros requested local_cfg from_file.
  apply parse_config_Ok_source in Hrun
    as (b & base & env_keys & Hlocal & _ & Hlayer & Henv & _ & Hcfg).
  apply os_path_exists_Ok_inv in Hlocal as [_ Hb].
  fold requested in Hb. fold local_cfg in Hb.
  assert (Hchosen : from_file (chosen_config_file w p b)).
  { split.
    - intros content kvs Hnode Hdoc k Hun.
      rewrite Hcfg, lookup_union_r by (eapply unset_lookup; eassumption).
      destruct Hlayer as [[Hnone _] | (content' & doc & Hnode' & Hdoc' & Hup)];
        [congruence |].
      rewrite Hnode in Hnode'. injection Hnode' as <-.
      rewrite Hdoc in Hdoc'. injection Hdoc' as <-.
      simpl in Hup. injection Hup as <-. reflexivity.
    - intros Hnone k Hun.
      rewrite Hcfg, lookup_union_r by (eapply unset_lookup; eassumption).
      destruct Hlayer as [[_ ->] | (content' & doc & Hnode' & _)];
        [reflexivity | congruence]. }
  split.
  - intros q Hq Hne. unfold chosen_config_file in Hchosen. rewrite Hq in Hchosen.
    destruct (String.eqb_spec q ""); [contradiction | exact Hchosen].
  - intros Hq.
    assert (Hc : chosen_config_file w p b = if b then local_cfg else requested).
    { unfold chosen_config_file. destruct Hq as [-> | ->]; reflexivity. }
    rewrite Hc in Hchosen. split.
    + intros Hsome. apply Hb in Hsome. now rewrite Hsome in Hchosen.
    + intros Hnone. destruct b; [| exact Hchosen].
      exfalso. now apply (proj1 Hb).
Qed.

Lemma parse_config_file_precedence_witness :
  exists cfg w',
    parse_config (yaml_one configured_text configured_doc) None configured_world
      = (Ok cfg, w') /\
    cfg !! "contract_url" = Some (PStr "https://contracts.canonical.com").
Proof.
  assert (Hrun : is_ok (fst (parse_config (yaml_one configured_text configured_doc)
                               None configured_world)) = true)
    by (vm_compute; reflexivity).
  destruct (parse_config (yaml_one configured_text configured_doc) None
              configured_world) as [[c | e |] w'] eqn:E; try discriminate Hrun.
  exists c, w'. split; [reflexivity |].
  destruct (parse_config_file_precedence _ _ _ _ _ E) as [_ H].
  destruct (H (or_introl eq_refl)) as [_ Hreq].
  destruct (Hreq eq_refl) as [Hfile _].
  rewrite (Hfile configured_text
             [("log_level", PStr "info");
              ("contract_url", PStr "https://contracts.canonical.com")]
             eq_refl eq_refl "contract_url").
  - reflexivity.
  - repeat constructor; discriminate.
Defined.

(** X11. A configuration file that is there must be YAML for a mapping:
    when the file that [parse_config] settles on exists, a text that is
    not YAML makes it raise [YAMLError], and a text that is YAML for
    [None] (an empty file), a boolean or an integer makes it raise
    [TypeError]. *)
Theorem parse_config_rejects_document
    (yaml_load : string -> yaml_result) (p : option string) (w : world)
    (b : bool) (content : string)
    (Hlocal : os_path_exists
                (PStr (os_path_join (w_cwd w) (os_path_basename (requested_path p)))) w
              = (Ok b, w))
    (Hcanon : canonical (chosen_config_file w p b) = true)
    (Hfile : node_at (w_fs w) (chosen_config_file w p b) = Some (File content)) :
  (yaml_load content = YamlFails ->
   fst (parse_config yaml_load p w) = Raise YAMLError) /\
  (forall v, yaml_load content = YamlValue v ->
     v = PNone \/ (exists t, v = PBool t) \/ (exists z, v = PInt z) ->
     fst (parse_config yaml_load p w) = Raise TypeError).
Proof.
  assert (Hstep : forall o,
            (of_yaml (yaml_load content) = Raise o \/
             exists v, of_yaml (yaml_load content) = Ok v /\
                       dict_update CONFIG_DEFAULTS v = Raise o) ->
            fst (parse_config yaml_load p w) = Raise o).
  { intros o Ho. unfold parse_config. fold (requested_path p).
    rewrite (bind_Ok _ _ _ _ _ Hlocal). fold (chosen_config_file w p b).
    erewrite bind_Ok by reflexivity.
    erewrite bind_Ok by (eapply os_path_exists_present; [exact Hcanon | exact Hfile]).
    unfold bind at 1. unfold bind at 1.
    unfold util_load_file. rewrite Hcanon. simpl w_fs. rewrite Hfile.
    unfold bind at 1. unfold lift at 1.
    destruct Ho as [-> | (v & -> & Hv)]; [reflexivity |].
    unfold lift. now rewrite Hv. }
  split.
  - intros Hy. apply Hstep. left. now rewrite Hy.
  - intros v Hy Hv. apply Hstep. right.
    exists v. rewrite Hy. split; [reflexivity |].
    destruct Hv as [-> | [[t ->] | [z ->]]]; reflexivity.
Qed.

Lemma parse_config_rejects_document_witness :
  fst (parse_config (fun _ => YamlValue PNone) None configured_world) = Raise TypeError.
Proof.
  apply (proj2 (parse_config_rejects_document (fun _ => YamlValue PNone) None
                  configured_world false configured_text eq_refl eq_refl eq_refl)
           PNone eq_refl).
  now left.
Defined.




(** ** The memo fields *)

(** [machine_token] with an empty memo field is [read_cache]. *)
Lemma machine_token_fresh self w :
  truthy (_machine_token self) = false ->
  machine_token self w =
  match read_cache self (Some "machine-token") w with
  | (Ok v, w1) =>
      (Ok (v, mkUAConfig (cfg self) (_contracts self) (_entitlements self) v), w1)
  | (Raise e, w1) => (Raise e, w1)
  | (Beyond, w1) => (Beyond, w1)
  end.
Proof.
  intros H. unfold machine_token. rewrite H. simpl. unfold bind, ret.
  destruct (read_cache self (Some "machine-token") w) as [[v | e |] w1]; reflexivity.
Qed.

Lemma machine_token_memo self w :
  truthy (_machine_token self) = true ->
  machine_token self w = (Ok (_machine_token self, self), w).
Proof. intros H. unfold machine_token. rewrite H. reflexivity. Qed.

Lemma is_attached_run self w :
  is_attached self w =
  match machine_token self w with
  | (Ok r, w1) => (Ok (truthy (fst r), snd r), w1)
  | (Raise e, w1) => (Raise e, w1)
  | (Beyond, w1) => (Beyond, w1)
  end.
Proof.
  unfold is_attached, bind, ret.
  destruct (machine_token self w) as [[r | e |] w1]; reflexivity.
Qed.

(** What an answer of [is_attached] says of the instance that comes back. *)
Lemma is_attached_answer self w t self' w' :
  is_attached self w = (Ok (t, self'), w') ->
  cfg self' = cfg self /\ truthy (_machine_token self') = t.
Proof.
  rewrite is_attached_run.
  destruct (truthy (_machine_token self)) eqn:T.
  - rewrite machine_token_memo by exact T. simpl. intros [= <- <- _]. auto.
  - rewrite machine_token_fresh by exact T.
    destruct (read_cache self (Some "machine-token") w) as [[v | e |] w1];
      try discriminate.
    simpl. intros [= <- <- _]. auto.
Qed.

(** X13. Once [is_attached] has answered [True], the instance keeps the
    token: every later [is_attached] on it is [True] without a look at
    the store, also when the file of ['machine-token'] is gone by then. *)
Theorem is_attached_sticky
    (self self' : UAConfig) (w w' : world)
    (Hyes : is_attached self w = (Ok (true, self'), w')) :
  forall w2, is_attached self' w2 = (Ok (true, self'), w2).
Proof.
  apply is_attached_answer in Hyes as [_ T]. intros w2.
  rewrite is_attached_run, machine_token_memo by exact T. simpl. now rewrite T.
Qed.

Lemma is_attached_sticky_witness :
  exists w1 self' w2,
    write_cache default_instance (Some "machine-token")
      (PDict [("machineToken", PStr "secret")]) bare_world = (Ok tt, w1) /\
    is_attached default_instance w1 = (Ok (true, self'), w2) /\
    is_attached self' bare_world = (Ok (true, self'), bare_world).
Proof.
  set (v := PDict [("machineToken", PStr "secret")]).
  assert (Hrun :
    match write_cache default_instance (Some "machine-token") v bare_world with
    | (Ok _, w1) =>
        match is_attached default_instance w1 with
        | (Ok (t, _), _) => t
        | _ => false
        end
    | _ => false
    end = true) by (vm_compute; reflexivity).
  destruct (write_cache default_instance (Some "machine-token") v bare_world)
    as [[[] | e |] w1] eqn:E; try discriminate Hrun.
  destruct (is_attached default_instance w1) as [[[t self'] | e |] w2] eqn:E2;
    try discriminate Hrun.
  subst t. exists w1, self', w2. split; [reflexivity |]. split; [exact E2 |].
  exact (is_attached_sticky default_instance self' w1 w2 E2 bare_world).
Defined.

(** After a completed write of a truthy value under ['machine-token'],
    an instance with an empty memo field reads a truthy token. *)
Lemma read_token_after_write self v w w' :
  truthy v = true -> Json.unique_keys v = true ->
  (forall s, v = PStr s -> Json.loads s <> Beyond) ->
  write_cache self (Some "machine-token") v w = (Ok tt, w') ->
  exists r, read_cache self (Some "machine-token") w' = (Ok r, w') /\ truthy r = true.
Proof.
  intros Htruthy Hkeys Hcovered Hwrite.
  apply write_cache_stores in Hwrite as (p & text & Hpath & Hc & Htext & Hnode).
  pose proof (read_cache_present self _ p _ w' Hpath Hc Hnode) as Hread.
  destruct v as [| b | z | s | l | kvs];
    try (unfold util_maybe_parse_json in Hread;
         rewrite (JsonFacts.loads_dumps _ _ Hkeys Htext) in Hread;
         rewrite Htruthy in Hread; eauto).
  injection Htext as <-.
  assert (Hs : truthy (PStr s) = true) by exact Htruthy.
  unfold util_maybe_parse_json in Hread.
  destruct (Json.loads s) as [j | e |] eqn:Ej.
  - destruct (truthy j) eqn:Tj; eauto.
  - rewrite (loads_raises_only s e Ej) in Hread. simpl in Hread. eauto.
  - exfalso. now apply (Hcovered s eq_refl).
Qed.

(** X14. An answer [False] is not kept: on the instance that answered
    [False], a completed [write_cache('machine-token', v)] with a truthy
    [v] makes the next [is_attached] answer [True]. *)
Theorem is_attached_after_attach
    (self self' : UAConfig) (v : pyval) (w w1 w2 : world)
    (Hno : is_attached self w = (Ok (false, self'), w1))
    (Htruthy : truthy v = true)
    (Hkeys : Json.unique_keys v = true)
    (Hcovered : forall s, v = PStr s -> Json.loads s <> Beyond)
    (Hwrite : write_cache self' (Some "machine-token") v w1 = (Ok tt, w2)) :
  exists self'' w3, is_attached self' w2 = (Ok (true, self''), w3).
Proof.
  apply is_attached_answer in Hno as [_ T].
  destruct (read_token_after_write self' v w1 w2 Htruthy Hkeys Hcovered Hwrite)
    as (r & Hr & Tr).
  rewrite is_attached_run, machine_token_fresh by exact T.
  rewrite Hr. simpl. rewrite Tr. eauto.
Qed.

Lemma is_attached_after_attach_witness :
  exists self' w1 w2 self'' w3,
    is_attached default_instance bare_world = (Ok (false, self'), w1) /\
    write_cache self' (Some "machine-token") (PStr "token-text") w1 = (Ok tt, w2) /\
    is_attached self' w2 = (Ok (true, self''), w3).
Proof.
  assert (Hrun :
    match is_attached default_instance bare_world with
    | (Ok (t, s), w1) =>
        negb t && is_ok (fst (write_cache s (Some "machine-token")
                                (PStr "token-text") w1))
    | _ => false
    end = true) by (vm_compute; reflexivity).
  destruct (is_attached default_instance bare_world)
    as [[[t self'] | e |] w1] eqn:E; try discriminate Hrun.
  apply andb_prop in Hrun as [Ht Hw]. apply negb_true_iff in Ht. subst t.
  destruct (write_cache self' (Some "machine-token") (PStr "token-text") w1)
    as [[[] | e |] w2] eqn:E2; try discriminate Hw.
  destruct (is_attached_after_attach default_instance self' (PStr "token-text")
              bare_world w1 w2 E eq_refl eq_refl) as (self'' & w3 & H);
    [| exact E2 |].
  - intros s [= <-]. vm_compute. discriminate.
  - exists self', w1, w2, self'', w3. split; [reflexivity |]. split; [exact E2 | exact H].
Defined.

(** ** Contracts and entitlements *)

Lemma contracts_fresh self w :
  truthy (_contracts self) = false ->
  contracts self w =
  match read_cache self (Some "account-contracts") w with
  | (Ok v, w1) =>
      (Ok (if truthy v then v else PList [],
           mkUAConfig (cfg self) v (_entitlements self) (_machine_token self)), w1)
  | (Raise e, w1) => (Raise e, w1)
  | (Beyond, w1) => (Beyond, w1)
  end.
Proof.
  intros H. unfold contracts. rewrite H. simpl. unfold bind, ret.
  destruct (read_cache self (Some "account-contracts") w) as [[v | e |] w1]; reflexivity.
Qed.

(** What [contracts] can return, and what it leaves of the world. *)
Lemma contracts_result self w cs self' w' :
  contracts self w = (Ok (cs, self'), w') ->
  (truthy cs = true \/ cs = PList []) /\ cfg self' = cfg self /\
  _entitlements self' = _entitlements self /\ w_fs w' = w_fs w.
Proof.
  destruct (truthy (_contracts self)) eqn:T.
  - unfold contracts. rewrite T. simpl. unfold bind, ret. simpl.
    rewrite T. intros [= <- <- <-]. auto.
  - rewrite contracts_fresh by exact T.
    pose proof (read_cache_fs self (Some "account-contracts") w) as Hfs.
    destruct (read_cache self (Some "account-contracts") w) as [[v | e |] w1];
      try discriminate.
    intros [= <- <- <-]. simpl in *.
    destruct (truthy v) eqn:Tv; auto.
Qed.

(** X15. [contracts] on an instance with an empty memo field: without the
    cache file it is the empty list and nothing is kept; a file whose text
    is JSON for a truthy value gives that value; a file whose text is not
    JSON, or is JSON for a falsy value such as the empty list, gives the
    text itself, a string. *)
Theorem contracts_of_cache
    (self : UAConfig) (p : string) (w : world)
    (Hfresh : truthy (_contracts self) = false)
    (Hpath : data_path self (Some "account-contracts") = Ok (PStr p))
    (Hcanon : canonical p = true) :
  (node_at (w_fs w) p = None ->
   exists self' w',
     contracts self w = (Ok (PList [], self'), w') /\
     truthy (_contracts self') = false) /\
  (forall content j,
     node_at (w_fs w) p = Some (File content) ->
     Json.loads content = Ok j -> truthy j = true ->
     exists self', contracts self w = (Ok (j, self'), w) /\ _contracts self' = j) /\
  (forall content,
     node_at (w_fs w) p = Some (File content) -> content <> "" ->
     Json.loads content = Raise ValueError \/ encodes_falsy content ->
     exists self',
       contracts self w = (Ok (PStr content, self'), w) /\
       _contracts self' = PStr content).
Proof.
  split; [| split].
  - intros Hnone. rewrite contracts_fresh by exact Hfresh.
    rewrite (read_cache_missing self _ p w Hpath Hcanon Hnone). simpl. eauto.
  - intros content j Hnode Hj Tj. rewrite contracts_fresh by exact Hfresh.
    rewrite (read_cache_present self _ p content w Hpath Hcanon Hnode).
    unfold util_maybe_parse_json. rewrite Hj, Tj. simpl. rewrite Tj. eauto.
  - intros content Hnode Hne Hj. rewrite contracts_fresh by exact Hfresh.
    rewrite (read_cache_present self _ p content w Hpath Hcanon Hnode).
    assert (Hs : truthy (PStr content) = true).
    { simpl. destruct (String.eqb_spec content ""); [contradiction | reflexivity]. }
    unfold util_maybe_parse_json.
    destruct Hj as [-> | (j & -> & Tj)].
    + change (truthy PNone) with false. cbv iota. rewrite Hs. eauto.
    + rewrite Tj. rewrite Hs. eauto.
Qed.

Lemma contracts_of_cache_witness :
  exists self' w',
    contracts default_instance bare_world = (Ok (PList [], self'), w') /\
    truthy (_contracts self') = false.
Proof.
  exact (proj1 (contracts_of_cache default_instance
                  "/var/lib/ubuntu-advantage/account-contracts.json" bare_world
                  eq_refl eq_refl eq_refl) eq_refl).
Defined.

(** *** The loop of [entitlements] *)

Lemma dict_get_set d k v k' :
  dict_get (Json.dict_set d k v) k' =
  if String.eqb k' k then Some v else dict_get d k'.
Proof.
  induction d as [| [k0 v0] r IH]; simpl.
  - reflexivity.
  - destruct (String.eqb_spec k k0) as [-> | Hne]; simpl.
    + destruct (String.eqb k' k0); reflexivity.
    + rewrite IH. destruct (String.eqb_spec k' k0) as [-> | Hne2]; [| reflexivity].
      destruct (String.eqb_spec k0 k); [congruence | reflexivity].
Qed.

Lemma read_cache_cfg s1 s2 key w :
  cfg s1 = cfg s2 -> read_cache s1 key w = read_cache s2 key w.
Proof. intros H. unfold read_cache, data_path. now rewrite H. Qed.

Lemma entitlements_names_inv self names : forall ents w o ents' w',
  entitlements_names self names ents w = (o, ents', w') ->
  entries_from self (w_fs w) ents ->
  w_fs w' = w_fs w /\ entries_from self (w_fs w) ents' /\
  (forall n, dict_get ents n <> None -> dict_get ents' n <> None) /\
  (o = Ok tt -> forall n, In n names -> dict_get ents' n <> None).
Proof.
  induction names as [| name r IH]; intros ents w o ents' w' H Hinv; simpl in H.
  - injection H as <- <- <-. repeat split; auto; try (now intros _ ? []).
  - pose proof (read_cache_fs self (Some ("machine-access-" ++ name)) w) as Hfs.
    destruct (read_cache self (Some ("machine-access-" ++ name)) w)
      as [[v | e |] w1] eqn:E; simpl in Hfs.
    + apply IH in H.
      * rewrite Hfs in H. destruct H as (H1 & H2 & H3 & H4).
        split; [exact H1 |]. split; [exact H2 |]. split.
        -- intros n Hn. apply H3. rewrite dict_get_set.
           destruct (String.eqb n name); [discriminate | exact Hn].
        -- intros Ho n [<- | Hin]; [| now apply H4].
           apply H3. rewrite dict_get_set, String.eqb_refl. discriminate.
      * rewrite Hfs. intros n v' w2 Hw2 Hget. rewrite dict_get_set in Hget.
        destruct (String.eqb_spec n name) as [-> | Hne].
        -- injection Hget as <-.
           rewrite (read_cache_fst_fs self _ w2 w) by exact Hw2. now rewrite E.
        -- now apply Hinv.
    + injection H as <- <- <-. repeat split; auto; try discriminate.
    + injection H as <- <- <-. repeat split; auto; try discriminate.
Qed.

Lemma entitlements_contracts_inv self items : forall ents w o ents' w',
  entitlements_contracts self items ents w = (o, ents', w') ->
  entries_from self (w_fs w) ents ->
  w_fs w' = w_fs w /\ entries_from self (w_fs w) ents' /\
  (forall n, dict_get ents n <> None -> dict_get ents' n <> None) /\
  (o = Ok tt -> forall c names n,
     In c items -> ent_names c = Ok names -> In n names -> dict_get ents' n <> None).
Proof.
  induction items as [| c r IH]; intros ents w o ents' w' H Hinv; simpl in H.
  - injection H as <- <- <-. repeat split; auto; try (now intros _ ? ? ? []).
  - destruct (ent_names c) as [names | e |] eqn:En.
    + destruct (entitlements_names self names ents w) as [[o1 ents1] w1] eqn:E1.
      apply entitlements_names_inv in E1 as (F1 & I1 & K1 & N1); [| exact Hinv].
      destruct o1 as [[] | e |].
      * apply IH in H; [| now rewrite F1].
        rewrite F1 in H. destruct H as (H1 & H2 & H3 & H4).
        split; [exact H1 |]. split; [exact H2 |]. split; [auto |].
        intros Ho c' names' n [<- | Hin] Hc' Hn.
        -- rewrite En in Hc'. injection Hc' as <-. apply H3. now apply N1.
        -- eapply H4; eassumption.
      * injection H as <- <- <-. repeat split; auto; try discriminate.
      * injection H as <- <- <-. repeat split; auto; try discriminate.
    + injection H as <- <- <-. repeat split; auto; try discriminate.
    + injection H as <- <- <-. repeat split; auto; try discriminate.
Qed.

Lemma contracts_world self w : w_fs (snd (contracts self w)) = w_fs w.
Proof.
  pose proof (read_cache_fs self (Some "account-contracts") w) as H.
  unfold contracts, bind, ret. destruct (truthy (_contracts self)); simpl.
  - destruct (truthy (_contracts self)); reflexivity.
  - destruct (read_cache self (Some "account-contracts") w) as [[v | e |] w1];
      simpl in *; [| exact H ..].
    destruct (truthy v); exact H.
Qed.

(** The outcome, the instance and the world of a run of [entitlements]
    that starts from an empty memo field. *)
Lemma entitlements_fresh self w :
  truthy (_entitlements self) = false ->
  entitlements self w =
  match contracts (set_entitlements self (PDict [])) w with
  | (Ok (cs, self1), w1) =>
      match py_iter cs with
      | Ok items =>
          match entitlements_contracts self1 items [] w1 with
          | (Ok _, ents, w2) =>
              (Ok (PDict ents), set_entitlements self1 (PDict ents), w2)
          | (Raise e, ents, w2) => (Raise e, set_entitlements self1 (PDict ents), w2)
          | (Beyond, ents, w2) => (Beyond, set_entitlements self1 (PDict ents), w2)
          end
      | Raise e => (Raise e, self1, w1)
      | Beyond => (Beyond, self1, w1)
      end
  | (Raise e, w1) => (Raise e, set_entitlements self (PDict []), w1)
  | (Beyond, w1) => (Beyond, set_entitlements self (PDict []), w1)
  end.
Proof. intros H. unfold entitlements. rewrite H. reflexivity. Qed.

Lemma entries_from_cfg s1 s2 fs ents :
  cfg s1 = cfg s2 -> entries_from s1 fs ents -> entries_from s2 fs ents.
Proof.
  intros H Hinv n v w Hw Hget.
  rewrite <- (read_cache_cfg s1 s2) by exact H. now apply Hinv.
Qed.

(** X16. [entitlements] fills its mapping from the cache and from nothing
    else.  Starting from an empty memo field, however the call ends, the
    file store is unchanged and every entry [name: value] of
    [self._entitlements] is what [read_cache('machine-access-<name>')]
    returns; a call that returns, returns that mapping. *)
Theorem entitlements_entries
    (self self' : UAConfig) (w w' : world) (o : outcome pyval)
    (Hfresh : truthy (_entitlements self) = false)
    (Hrun : entitlements self w = (o, self', w')) :
  w_fs w' = w_fs w /\
  exists ents,
    _entitlements self' = PDict ents /\
    (forall r, o = Ok r -> r = PDict ents) /\
    forall n v, dict_get ents n = Some v ->
      fst (read_cache self (Some ("machine-access-" ++ n)) w) = Ok v.
Proof.
  rewrite entitlements_fresh in Hrun by exact Hfresh.
  pose proof (read_cache_fs
                (set_entitlements self (PDict [])) (Some "account-contracts") w)
    as Hfs0.
  assert (Hempty : forall s fs, entries_from s fs []) by (intros s fs n v w0 _ [=]).
  destruct (contracts (set_entitlements self (PDict [])) w)
    as [[[cs self1] | e |] w1] eqn:Ec.
  - apply contracts_result in Ec as (_ & Hcfg & Hent & Hfs1). simpl in Hcfg, Hent.
    destruct (py_iter cs) as [items | e |].
    + destruct (entitlements_contracts self1 items [] w1) as [[o1 ents] w2] eqn:El.
      apply entitlements_contracts_inv in El as (F & I & _ & _); [| apply Hempty].
      assert (Hres : w_fs w2 = w_fs w /\
                forall n v, dict_get ents n = Some v ->
                  fst (read_cache self (Some ("machine-access-" ++ n)) w) = Ok v).
      { split; [congruence |]. intros n v Hget.
        rewrite <- (read_cache_cfg self1 self) by exact Hcfg.
        apply (I n v w); [now symmetry | exact Hget]. }
      destruct Hres as [Hw Hall].
      destruct o1 as [[] | e |]; injection Hrun as <- <- <-;
        (split; [exact Hw |]); exists ents; (split; [reflexivity |]);
        (split; [intros r [=]; congruence | exact Hall]).
    + injection Hrun as <- <- <-. split; [exact Hfs1 |].
      exists []. rewrite Hent. split; [reflexivity |].
      split; [discriminate | intros n v [=]].
    + injection Hrun as <- <- <-. split; [exact Hfs1 |].
      exists []. rewrite Hent. split; [reflexivity |].
      split; [discriminate | intros n v [=]].
  - pose proof (contracts_world (set_entitlements self (PDict [])) w) as Hw.
    rewrite Ec in Hw. simpl in Hw.
    injection Hrun as <- <- <-. split; [exact Hw |].
    exists []. split; [reflexivity |]. split; [discriminate | intros n v [=]].
  - pose proof (contracts_world (set_entitlements self (PDict [])) w) as Hw.
    rewrite Ec in Hw. simpl in Hw.
    injection Hrun as <- <- <-. split; [exact Hw |].
    exists []. split; [reflexivity |]. split; [discriminate | intros n v [=]].
Qed.

Lemma entitlements_entries_witness :
  exists self' w',
    entitlements default_instance entitled_world
      = (Ok (PDict [("esm", PList [PInt 1; PInt 2]); ("livepatch", PNone)]), self', w') /\
    w_fs w' = w_fs entitled_world /\
    fst (read_cache default_instance (Some "machine-access-esm") entitled_world)
      = Ok (PList [PInt 1; PInt 2]).
Proof.
  assert (Hrun : fst (fst (entitlements default_instance entitled_world))
                 = Ok (PDict [("esm", PList [PInt 1; PInt 2]); ("livepatch", PNone)]))
    by (vm_compute; reflexivity).
  destruct (entitlements default_instance entitled_world) as [[o self'] w'] eqn:E.
  simpl in Hrun. subst o.
  destruct (entitlements_entries default_instance self' entitled_world w' _ eq_refl E)
    as (Hfs & ents & _ & Hres & Hall).
  exists self', w'. split; [reflexivity |]. split; [exact Hfs |].
  specialize (Hres _ eq_refl). injection Hres as <-.
  exact (Hall "esm" (PList [PInt 1; PInt 2]) eq_refl).
Defined.

(** X17. A call of [entitlements] that returns has an entry for every
    entitlement of every contract: when [contracts] is the list [cs], each
    name among the keys of [c['contractInfo']['resourceEntitlements']],
    for each [c] of [cs], is a key of the result. *)
Theorem entitlements_covers
    (self self' s1 : UAConfig) (w w' w1 : world) (r : pyval) (cs : list pyval)
    (Hfresh : truthy (_entitlements self) = false)
    (Hcs : contracts (set_entitlements self (PDict [])) w = (Ok (PList cs, s1), w1))
    (Hrun : entitlements self w = (Ok r, self', w')) :
  exists ents,
    r = PDict ents /\
    forall c names n,
      In c cs -> ent_names c = Ok names -> In n names -> dict_get ents n <> None.
Proof.
  rewrite entitlements_fresh, Hcs in Hrun by exact Hfresh. simpl in Hrun.
  destruct (entitlements_contracts s1 cs [] w1) as [[o1 ents] w2] eqn:El.
  destruct o1 as [[] | e |]; try discriminate Hrun.
  injection Hrun as <- _ _.
  apply entitlements_contracts_inv in El as (_ & _ & _ & Hall);
    [| intros n v w0 _ [=]].
  exists ents. split; [reflexivity |]. now apply Hall.
Qed.

Lemma entitlements_covers_witness :
  exists ents self' w',
    entitlements default_instance entitled_world = (Ok (PDict ents), self', w') /\
    dict_get ents "livepatch" <> None.
Proof.
  assert (Hcs :
    match contracts (set_entitlements default_instance (PDict [])) entitled_world with
    | (Ok (c, _), _) => Some c
    | _ => None
    end
    = Some (PList [PDict [("contractInfo",
                     PDict [("resourceEntitlements",
                       PDict [("esm", PDict []); ("livepatch", PDict [])])])]]))
    by (vm_compute; reflexivity).
  assert (Hrun : is_ok (fst (fst (entitlements default_instance entitled_world))) = true)
    by (vm_compute; reflexivity).
  destruct (contracts (set_entitlements default_instance (PDict [])) entitled_world)
    as [[[cs s1] | e |] w1] eqn:Ec; try discriminate Hcs.
  injection Hcs as ->.
  destruct (entitlements default_instance entitled_world) as [[o self'] w'] eqn:E.
  destruct o as [r | e |]; try discriminate Hrun.
  destruct (entitlements_covers default_instance self' s1 entitled_world w' w1 r _
              eq_refl Ec E) as (ents & -> & Hall).
  exists ents, self', w'. split; [reflexivity |].
  apply (Hall _ ["esm"; "livepatch"] "livepatch" (or_introl eq_refl) eq_refl).
  right. now left.
Defined.

(** X18. [entitlements] works on a list of contracts only: when the
    contracts that the instance holds or reads are anything else (the
    text of a cache file that is not JSON or is the empty list, a JSON
    object, a number), the call raises [TypeError]. *)
Theorem entitlements_needs_list
    (self s1 : UAConfig) (w w1 : world) (cs : pyval)
    (Hfresh : truthy (_entitlements self) = false)
    (Hcs : contracts (set_entitlements self (PDict [])) w = (Ok (cs, s1), w1))
    (Hother : forall l, cs <> PList l) :
  fst (fst (entitlements self w)) = Raise TypeError.
Proof.
  rewrite entitlements_fresh, Hcs by exact Hfresh.
  apply contracts_result in Hcs as ([T | ->] & _); [| now destruct (Hother [])].
  destruct cs as [| b | z | s | l | kvs]; try reflexivity.
  - destruct s as [| c s]; [discriminate T | reflexivity].
  - now destruct (Hother l).
  - destruct kvs as [| [k v] kvs]; [discriminate T | reflexivity].
Qed.

Lemma entitlements_needs_list_witness :
  fst (fst (entitlements default_instance empty_contracts_world)) = Raise TypeError.
Proof.
  assert (Hcs :
    match contracts (set_entitlements default_instance (PDict []))
            empty_contracts_world with
    | (Ok (c, _), _) => Some c
    | _ => None
    end = Some (PStr "[]")) by (vm_compute; reflexivity).
  destruct (contracts (set_entitlements default_instance (PDict []))
              empty_contracts_world) as [[[cs s1] | e |] w1] eqn:Ec;
    try discriminate Hcs.
  injection Hcs as ->.
  apply (entitlements_needs_list default_instance s1 empty_contracts_world w1
           (PStr "[]") eq_refl Ec).
  discriminate.
Defined.

(** X19. Without a contracts cache there are no entitlements, and nothing
    is kept: on an instance with empty memo fields, when the file of
    ['account-contracts'] does not exist, [entitlements] returns the empty
    mapping and leaves both memo fields falsy, so that the next call looks
    at the store again. *)
Theorem entitlements_without_contracts
    (self : UAConfig) (p : string) (w : world)
    (Hents : truthy (_entitlements self) = false)
    (Hcontracts : truthy (_contracts self) = false)
    (Hpath : data_path self (Some "account-contracts") = Ok (PStr p))
    (Hcanon : canonical p = true)
    (Habsent : node_at (w_fs w) p = None) :
  exists self' w',
    entitlements self w = (Ok (PDict []), self', w') /\
    truthy (_entitlements self') = false /\
    truthy (_contracts self') = false /\
    w_fs w' = w_fs w.
Proof.
  rewrite entitlements_fresh by exact Hents.
  rewrite contracts_fresh by exact Hcontracts.
  assert (Hpath' : data_path (set_entitlements self (PDict []))
                     (Some "account-contracts") = Ok (PStr p)) by exact Hpath.
  rewrite (read_cache_missing _ _ p w Hpath' Hcanon Habsent).
  simpl. eexists _, _. split; [reflexivity |]. auto.
Qed.

Lemma entitlements_without_contracts_witness :
  exists self' w',
    entitlements default_instance bare_world = (Ok (PDict []), self', w') /\
    truthy (_entitlements self') = false.
Proof.
  destruct (entitlements_without_contracts default_instance
              "/var/lib/ubuntu-advantage/account-contracts.json" bare_world
              eq_refl eq_refl eq_refl eq_refl eq_refl) as (self' & w' & H & T & _).
  exists self', w'. split; assumption.
Defined.

(** ** Building an instance *)

Lemma parse_config_has_defaults yaml_load p w cfg w' k :
  parse_config yaml_load p w = (Ok cfg, w') ->
  is_Some (CONFIG_DEFAULTS !! k) -> is_Some (cfg !! k).
Proof.
  intros H Hk.
  apply parse_config_Ok_inv in H
    as (base & env_keys & lv & u & dd & Hlayer & _ & _ & _ & _ & ->).
  assert (Hbase : is_Some (base !! k)).
  { destruct Hlayer as [-> | (path & content & doc & _ & _ & Hup)]; [assumption |].
    eapply dict_update_keeps; eassumption. }
  rewrite !lookup_insert_is_Some'. right. right.
  rewrite lookup_union_is_Some. now right.
Qed.

(** X20. An instance that [UAConfig()] builds from [parse_config] (no
    mapping given, or an empty one) starts with empty memo fields and can
    resolve every cache key: [data_path] raises for no key, [data_dir] and
    [sso_auth_url] are there, and [log_level] is an upper-case string. *)
Theorem init_parsed_instance
    (yaml_load : string -> yaml_result) (given : option (gmap string pyval))
    (self : UAConfig) (w w' : world)
    (Hgiven : given = None \/ given = Some ∅)
    (Hinit : __init__ yaml_load given w = (Ok self, w')) :
  parse_config yaml_load None w = (Ok (cfg self), w') /\
  _contracts self = PNone /\ _entitlements self = PNone /\
  _machine_token self = PNone /\
  (forall key, exists p, data_path self key = Ok (PStr p)) /\
  (exists d, data_dir self = Ok (PStr d)) /\
  (exists url, sso_auth_url self = Ok url) /\
  (exists u, log_level self = Ok (PStr u) /\ str_upper u = Some u).
Proof.
  assert (Hrun : exists c, parse_config yaml_load None w = (Ok c, w') /\
                           self = mkUAConfig c PNone PNone PNone).
  { destruct Hgiven as [-> | ->]; simpl in Hinit;
      apply bind_Ok_inv in Hinit as (c & w1 & Hp & Hr);
      unfold ret in Hr; injection Hr as <- <-; eauto. }
  destruct Hrun as (c & Hp & ->). simpl.
  split; [exact Hp |]. repeat (split; [reflexivity |]).
  assert (Hshape : exists u d,
            c !! "log_level" = Some (PStr u) /\ str_upper u = Some u /\
            c !! "data_dir" = Some (PStr d)).
  { pose proof Hp as Hinv. apply parse_config_Ok_inv in Hinv
      as (base & env_keys & lv & u & dd & _ & _ & _ & Hu & _ & ->).
    exists u, (os_path_expanduser w dd).
    rewrite lookup_insert_ne by discriminate.
    rewrite !lookup_insert_eq. split; [reflexivity |].
    split; [| reflexivity]. eapply str_upper_idem. exact Hu. }
  destruct Hshape as (u & d & Hu & Huu & Hd).
  assert (Hsso : is_Some (c !! "sso_auth_url")).
  { apply (parse_config_has_defaults yaml_load None w c w' _ Hp). vm_compute. eauto. }
  split; [| split; [| split]].
  - intros key. unfold data_path, getitem. simpl. rewrite Hd.
    destruct key as [k |]; [| eauto].
    destruct (String.eqb k ""); [eauto |].
    destruct (data_paths !! k); simpl; eauto.
  - exists d. unfold data_dir, getitem. simpl. now rewrite Hd.
  - destruct Hsso as [url Hurl]. exists url. unfold sso_auth_url, getitem. simpl.
    now rewrite Hurl.
  - exists u. unfold log_level. simpl. rewrite Hu. auto.
Qed.

Lemma init_parsed_instance_witness :
  exists self w',
    __init__ yaml_unused None overridden_world = (Ok self, w') /\
    (forall key, exists p, data_path self key = Ok (PStr p)) /\
    exists u, log_level self = Ok (PStr u) /\ str_upper u = Some u.
Proof.
  assert (Hrun : is_ok (fst (__init__ yaml_unused None overridden_world)) = true)
    by (vm_compute; reflexivity).
  destruct (__init__ yaml_unused None overridden_world) as [[s | e |] w'] eqn:E;
    try discriminate Hrun.
  destruct (init_parsed_instance yaml_unused None s overridden_world w'
              (or_introl eq_refl) E) as (_ & _ & _ & _ & Hall & _ & _ & Hlevel).
  exists s, w'. split; [reflexivity |]. split; assumption.
Defined.

(** ** Canonical paths and their components *)













(** A NUL character, a name of 256 bytes and a path of 4096 bytes are not
    canonical; a name of 255 bytes is. *)
Example canonical_limits :
  let ones n := string_of_list_ascii (repeat "1"%char n) in
  let deep := String.concat "" (repeat (String sep (ones 255)) 16) in
  canonical ("/var/" ++ String "000"%char "x") = false /\
  canonical ("/var/" ++ ones 255) = true /\
  canonical ("/var/" ++ ones 256) = false /\
  String.length deep = 4096 /\ canonical deep = false.
Proof. vm_compute. repeat split; reflexivity. Qed.


Lemma render_app a b : render (a ++ b) = render a ++ render b.
Proof.
  induction a as [| c r IH]; [reflexivity |].
  simpl. rewrite IH. now rewrite !JsonFacts.append_assoc.
Qed.


(** *** The head and the tail of a canonical path *)












(** *** Making directories *)

Lemma length_render_take k cs :
  String.length (render (take k cs)) <= String.length (render cs).
Proof.
  rewrite <- (take_drop k cs) at 2. rewrite render_app, JsonFacts.length_append. lia.
Qed.




Lemma node_at_not_root fs p x :
  p <> "/" -> node_at (<[p := x]> fs) p = Some x.
Proof. apply node_at_insert_eq. Qed.











(** ** The plain accessors *)

(** X23. A truthy value that [contracts] returns is kept on the instance:
    every later call returns it without a look at the store.  The fallback,
    the empty list, is not kept: after it the memo field is still falsy. *)
Theorem contracts_sticky
    (self self' : UAConfig) (cs : pyval) (w w' : world)
    (Hrun : contracts self w = (Ok (cs, self'), w')) :
  (truthy cs = true -> forall w2, contracts self' w2 = (Ok (cs, self'), w2)) /\
  (truthy cs = false -> cs = PList [] /\ truthy (_contracts self') = false).
Proof.
  assert (H : (truthy (_contracts self') = true /\ cs = _contracts self') \/
              (truthy (_contracts self') = false /\ cs = PList [])).
  { destruct (truthy (_contracts self)) eqn:T.
    - unfold contracts in Hrun. rewrite T in Hrun. simpl in Hrun.
      unfold bind, ret in Hrun. simpl in Hrun. rewrite T in Hrun.
      injection Hrun as <- <- <-. now left.
    - rewrite contracts_fresh in Hrun by exact T.
      destruct (read_cache self (Some "account-contracts") w) as [[v | e |] w1];
        try discriminate.
      injection Hrun as <- <- <-. simpl.
      destruct (truthy v) eqn:Tv; [now left | now right]. }
  split.
  - intros Hcs w2. destruct H as [[T ->] | [_ ->]]; [| discriminate Hcs].
    unfold contracts. rewrite T. simpl. unfold bind, ret. simpl. now rewrite T.
  - intros Hcs. destruct H as [[T ->] | [T ->]]; [congruence | auto].
Qed.

Lemma contracts_sticky_witness :
  exists cs self' w',
    contracts default_instance entitled_world = (Ok (cs, self'), w') /\
    contracts self' bare_world = (Ok (cs, self'), bare_world).
Proof.
  assert (Hrun :
    match contracts default_instance entitled_world with
    | (Ok (c, _), _) => truthy c
    | _ => false
    end = true) by (vm_compute; reflexivity).
  destruct (contracts default_instance entitled_world)
    as [[[cs self'] | e |] w'] eqn:E; try discriminate Hrun.
  exists cs, self', w'. split; [reflexivity |].
  exact (proj1 (contracts_sticky default_instance self' cs entitled_world w' E)
           Hrun bare_world).
Defined.

(** X24. Without a [data_dir] in the mapping there is no cache: every
    accessor that resolves a path raises [KeyError], for every key, and
    leaves the world as it is; [write_cache] makes no directory and writes
    no file. *)
Theorem cache_needs_data_dir
    (self : UAConfig) (Hnone : cfg self !! "data_dir" = None) :
  data_dir self = Raise KeyError /\
  (forall key, data_path self key = Raise KeyError) /\
  (forall key w, read_cache self key w = (Raise KeyError, w)) /\
  (forall key content w, write_cache self key content w = (Raise KeyError, w)) /\
  (forall w, accounts self w = (Raise KeyError, w)).
Proof.
  assert (Hd : data_dir self = Raise KeyError)
    by (unfold data_dir, getitem; now rewrite Hnone).
  assert (Hp : forall key, data_path self key = Raise KeyError).
  { intros key. unfold data_path, getitem. rewrite Hnone.
    destruct key as [k |]; [| reflexivity].
    destruct (String.eqb k ""); [reflexivity |].
    destruct (data_paths !! k); reflexivity. }
  assert (Hr : forall key w, read_cache self key w = (Raise KeyError, w)).
  { intros key w. unfold read_cache.
    apply bind_Raise. unfold lift. now rewrite Hp. }
  split; [exact Hd |]. split; [exact Hp |]. split; [exact Hr |]. split.
  - intros key content w. unfold write_cache.
    apply bind_Raise. unfold lift. now rewrite Hd.
  - intros w. apply Hr.
Qed.

Lemma cache_needs_data_dir_witness :
  read_cache (mkUAConfig {["contract_url" := PStr "https://contracts"]} PNone PNone PNone)
    (Some "machine-token") bare_world = (Raise KeyError, bare_world).
Proof.
  exact (proj1 (proj2 (proj2
           (cache_needs_data_dir
              (mkUAConfig {["contract_url" := PStr "https://contracts"]} PNone PNone PNone)
              eq_refl)))
           (Some "machine-token") bare_world).
Defined.
